(** * Protocol API contexts: a shallow embedding of
      [api/src/opentrons/protocol_api/contexts.py]

    The two classes of the file, [ProtocolContext] and [InstrumentContext],
    are embedded as functions in a state-and-exception monad over a heap of
    context objects.  The hardware driver ([hardware_control.API]), the
    geometry helpers and the labware loader are collaborators that live
    outside the file; they are taken as an interface ([Collaborators]).

    Conventions:
    - a Python [float] argument is a rational ([Q]); no method of the file
      computes with one;
    - [loop.run_until_complete(c)] runs the driver coroutine [c] to its end
      and hands back its result or its exception: it is the call itself;
    - the event loop [_loop] is not part of the state. *)

From Stdlib Require Import Ascii String QArith Qround.
From stdpp Require Import base gmap strings list finite sorting.

Local Open Scope Z_scope.

(** ** Shared data-model types *)

(** Modelled from the spec: [types.Mount] is not in the file; the spec
    describes it as a fixed enumeration of attachment points, left and
    right. *)
Inductive Mount := LEFT | RIGHT.

#[global] Instance Mount_eq_dec : EqDecision Mount.
Proof. solve_decision. Defined.

#[global] Instance Mount_finite : Finite Mount.
Proof.
  refine {| enum := [LEFT; RIGHT] |}.
  - by apply (bool_decide_unpack _).
  - intros []; repeat constructor.
Defined.

(** [Mount.name], the name of the enumeration member. *)
Definition Mount_name (m : Mount) : string :=
  match m with LEFT => "LEFT" | RIGHT => "RIGHT" end.

(** [str.lower] on the ASCII range. *)
Definition ascii_lower (c : ascii) : ascii :=
  let n := nat_of_ascii c in
  if (65 <=? n)%nat && (n <=? 90)%nat then ascii_of_nat (n + 32) else c.

Fixpoint lower (s : string) : string :=
  match s with
  | EmptyString => EmptyString
  | String c s' => String (ascii_lower c) (lower s')
  end.

(** A deck location is an integer slot identifier
    ([loaded_labwares] is typed [Dict[int, Labware]]). *)
Abbreviation DeckLocation := Z (only parsing).

(** Labware and wells are objects handled by reference only. *)
Definition Labware := nat.
Definition Well := nat.

(** The attachment metadata the driver reports for a mount: a dictionary
    with string keys, read by the file at the key ["name"] only. *)
Abbreviation InstrumentInfo := (gmap string string) (only parsing).

(** An address of a [ProtocolContext] object. *)
Definition addr := nat.

Inductive MODE := ASPIRATE | DISPENSE.
Inductive TYPE := SINGLE | MULTI.

Definition MODE_value (m : MODE) : string :=
  match m with ASPIRATE => "aspirate" | DISPENSE => "dispense" end.
Definition TYPE_value (t : TYPE) : string :=
  match t with SINGLE => "single" | MULTI => "multi" end.

(** Exceptions.  The first group is the error taxonomy of the specification
    (section 7); the file raises none of them itself, a collaborator may.
    [KeyError] is Python's, for a dictionary subscript that misses.
    [ReferenceError] is the answer of the model for an address that holds
    no object; a Python reference always holds one, so no script built from
    the results of earlier calls meets it. *)
Inductive Exn :=
  | LocationOccupied | UnknownLabware | InstrumentMismatch
  | NoTipAttached | NoTipAvailable | VolumeOutOfRange
  | ConfigurationInvalid | DriverUnavailable
  | KeyError (key : string)
  | ReferenceError.

#[global] Instance Exn_eq_dec : EqDecision Exn.
Proof. solve_decision. Defined.

Inductive Res (A : Type) :=
  | Returns (a : A)
  | Raises (e : Exn).
Arguments Returns {A} a.
Arguments Raises {A} e.

(** [InstrumentContext.__init__] keeps three attributes. *)
Record InstrumentContext := mkInstrumentContext {
  _ctx : addr;
  _info : gmap string string;
  _mount : Mount
}.

(** ** Collaborators

    Modelled from the spec: the driver contract of section 6
    ([attached_instruments], [cache_instruments], [move_to], [home], a
    simulator constructor), the geometry contract (location to point,
    slot position) and the labware loader.  [API] is the state of a driver
    object ([hc.API]); a driver call may change it and may raise. *)
Class Collaborators := {
  API : Type;
  Point : Type;
  Location : Type;
  MotionStrategy : Type;
  hc_build_hardware_simulator : API;
  hc_attached_instruments : API → gmap Mount (gmap string string);
  hc_cache_instruments :
    option (gmap Mount (option string)) → API → Res () * API;
  hc_move_to : Mount → Point → API → Res () * API;
  hc_home : API → Res () * API;
  (** what sits on a mount physically (or in the simulation), by name *)
  hc_physically_attached : API → Mount → option string;
  geometry_point_from_location : Location → Res Point;
  Deck_position_for : DeckLocation → Res Point;
  labware_load : string → Point → Res Labware
}.

(** Modelled from the spec: [geometry.Deck] is not in the file.  The spec
    describes it as the storage of location occupancy, indexed by
    [DeckLocation], with at most one labware at a location, whose contents
    read back ordered by location; placing labware at a populated location
    is rejected with [LocationOccupied] (sections 3, 4.1 and 8).  It is a
    finite map from slot to labware; [Deck_setitem] is [deck[loc] = lw],
    which raises on a populated slot, and [Deck_items] is the iteration
    [dict(deck)] performs. *)
Abbreviation Deck := (gmap Z Labware) (only parsing).

Definition Deck__init__ : gmap Z Labware := ∅.

Definition Deck_setitem (d : gmap Z Labware) (location : Z) (lw : Labware)
  : Res (gmap Z Labware) :=
  match d !! location with
  | Some _ => Raises LocationOccupied
  | None => Returns (<[location := lw]> d)
  end.

Definition loc_le (p q : Z * Labware) : Prop := p.1 ≤ q.1.

#[global] Instance loc_le_dec : RelDecision loc_le.
Proof. intros p q. unfold loc_le. apply _. Defined.

Definition Deck_items (d : gmap Z Labware) : list (Z * Labware) :=
  merge_sort loc_le (map_to_list d).

Section Model.
Context `{C : Collaborators}.

(** ** Objects and the world *)

Record ProtocolContext := mkProtocolContext {
  _hardware : API;
  _deck_layout : gmap Z Labware;
  _instruments : gmap Mount (option InstrumentContext)
}.

Definition set_hardware (h : API) (c : ProtocolContext) : ProtocolContext :=
  mkProtocolContext h (_deck_layout c) (_instruments c).

Definition set_deck_layout (d : gmap Z Labware) (c : ProtocolContext)
  : ProtocolContext :=
  mkProtocolContext (_hardware c) d (_instruments c).

(** A call that reaches the driver. *)
Inductive DriverCall :=
  | attached_instruments_read
  | cache_instruments_call (requested : option (gmap Mount (option string)))
  | move_to_call (mount : Mount) (where_ : Point)
  | home_call.

(** The methods and properties of [InstrumentContext], as requests. *)
Inductive InstrOp :=
  | aspirate_op (volume : option Q) (location : option Well) (rate : Q)
  | dispense_op (volume : option Q) (location : option Well) (rate : Q)
  | mix_op (repetitions : Z) (volume : option Q) (location : option Well)
           (rate : Q)
  | blow_out_op (location : option Well)
  | touch_tip_op (location : option Well) (radius v_offset speed : Q)
  | air_gap_op (volume height : option Q)
  | return_tip_op (home_after : bool)
  | pick_up_tip_op (location : option Well) (presses increment : Z)
  | drop_tip_op (location : option Well) (home_after : bool)
  | instr_home_op
  | distribute_op (volume : Q) (source dest : Well)
                  (args : list Q) (kwargs : list (string * string))
  | consolidate_op (volume : Q) (source dest : Well)
                   (args : list Q) (kwargs : list (string * string))
  | transfer_op (volume : Q) (source dest : Well)
                (kwargs : list (string * string))
  | instr_move_to_op (location : Location) (strategy : option MotionStrategy)
  | mount_get
  | speeds_get | speeds_set (new_speeds : list (MODE * Q))
  | flow_rate_get | flow_rate_set (new_flow_rate : list (MODE * Q))
  | pick_up_current_get | pick_up_current_set (amps : Q)
  | type_get
  | tip_racks_get | tip_racks_set (racks : list Labware)
  | trash_container_get | trash_container_set (trash : Labware)
  | name_get.

(** The world: the heap of protocol contexts, and two history variables
    that no method reads: the calls that reached a driver, and the
    liquid-handling and tip primitives that were entered, in order. *)
Record World := mkWorld {
  heap : gmap addr ProtocolContext;
  driver_calls : list DriverCall;
  issued : list (InstrumentContext * InstrOp)
}.

Definition set_heap (hp : gmap addr ProtocolContext) (w : World) : World :=
  mkWorld hp (driver_calls w) (issued w).

(** ** The monad of method bodies: state and exceptions *)

Definition M (A : Type) : Type := World → Res A * World.

#[global] Instance M_ret : MRet M := λ A a w, (Returns a, w).

#[global] Instance M_bind : MBind M := λ A B f m w,
  match m w with
  | (Returns a, w') => f a w'
  | (Raises e, w') => (Raises e, w')
  end.

#[global] Instance M_fmap : FMap M := λ A B f m, a ← m; mret (f a).

Definition raise {A} (e : Exn) : M A := λ w, (Raises e, w).

(** Python's [pass]: the body does nothing and the call evaluates to
    [None]. *)
Definition pass : M () := mret ().

Definition lift_res {A} (r : Res A) : M A :=
  match r with Returns a => mret a | Raises e => raise e end.

(** Attribute access on the object at [self]. *)
Definition get_attr {A} (self : addr) (f : ProtocolContext → A) : M A :=
  λ w, match heap w !! self with
       | Some c => (Returns (f c), w)
       | None => (Raises ReferenceError, w)
       end.

Definition set_attr (self : addr) (f : ProtocolContext → ProtocolContext)
  : M () :=
  λ w, match heap w !! self with
       | Some c => (Returns (), set_heap (<[self := f c]> (heap w)) w)
       | None => (Raises ReferenceError, w)
       end.

Definition log_driver (c : DriverCall) : M () :=
  λ w, (Returns (), mkWorld (heap w) (driver_calls w ++ [c]) (issued w)).

Definition log_issued (ic : InstrumentContext) (op : InstrOp) : M () :=
  λ w, (Returns (),
        mkWorld (heap w) (driver_calls w) (issued w ++ [(ic, op)])).

(** A method call on the driver bound to [self]: the call is recorded, the
    driver object takes its new state, and the result or the exception
    comes back to the caller. *)
Definition on_hardware (self : addr) (c : DriverCall)
    (f : API → Res () * API) : M () :=
  h ← get_attr self _hardware;
  log_driver c;;
  let '(r, h') := f h in
  set_attr self (set_hardware h');;
  lift_res r.

Definition hardware_attached_instruments (self : addr)
  : M (gmap Mount (gmap string string)) :=
  h ← get_attr self _hardware;
  log_driver attached_instruments_read;;
  mret (hc_attached_instruments h).

Definition hardware_cache_instruments (self : addr)
    (requested : option (gmap Mount (option string))) : M () :=
  on_hardware self (cache_instruments_call requested)
              (hc_cache_instruments requested).

Definition hardware_move_to (self : addr) (mount : Mount) (where_ : Point)
  : M () :=
  on_hardware self (move_to_call mount where_) (hc_move_to mount where_).

Definition hardware_home (self : addr) : M () :=
  on_hardware self home_call hc_home.

(** Dictionary subscript [d[k]]. *)
Definition getitem {K A} `{Countable K} (d : gmap K A) (k : K)
    (shown : string) : M A :=
  match d !! k with
  | Some a => mret a
  | None => raise (KeyError shown)
  end.

(** ** ProtocolContext *)

(** [__init__(hardware=None, loop=None)]: a new object on the heap. *)
Definition ProtocolContext__init__ (hardware : option API) : M addr :=
  λ w,
    let self := fresh (dom (heap w)) in
    let hw := match hardware with
              | Some hardware => hardware
              | None => hc_build_hardware_simulator
              end in
    let obj := mkProtocolContext hw Deck__init__
                 (list_to_map ((λ mount, (mount, None)) <$> enum Mount)) in
    (Returns self, set_heap (<[self := obj]> (heap w)) w).

Definition connect (self : addr) (hardware : API) : M () :=
  set_attr self (set_hardware hardware);;
  hardware_cache_instruments self None.

Definition disconnect (self : addr) : M () :=
  connect self hc_build_hardware_simulator.

Definition load_labware (self : addr) (labware_obj : Labware)
    (location : DeckLocation) (label : option string) (share : bool)
  : M Labware :=
  deck ← get_attr self _deck_layout;
  deck' ← lift_res (Deck_setitem deck location labware_obj);
  set_attr self (set_deck_layout deck');;
  mret labware_obj.

Definition load_labware_by_name (self : addr) (labware_name : string)
    (location : DeckLocation) : M Labware :=
  _ ← get_attr self _deck_layout;
  position ← lift_res (Deck_position_for location);
  labware ← lift_res (labware_load labware_name position);
  load_labware self labware location None false.

Definition loaded_labwares (self : addr) : M (list (Z * Labware)) :=
  d ← get_attr self _deck_layout;
  mret (Deck_items d).

Definition InstrumentContext__init__ (ctx : addr) (mount : Mount)
    (tip_racks : list Labware) (info : gmap string string)
    (config_kwargs : list (string * string)) : InstrumentContext :=
  {| _ctx := ctx; _info := info; _mount := mount |}.

Definition load_instrument (self : addr) (instrument_name : string)
    (mount : Mount) : M InstrumentContext :=
  items ← hardware_attached_instruments self;
  let attached := (λ instr : gmap string string, instr !! "name") <$> items in
  let attached := <[mount := Some instrument_name]> attached in
  hardware_cache_instruments self (Some attached);;
  items' ← hardware_attached_instruments self;
  info ← getitem items' mount (Mount_name mount);
  mret (InstrumentContext__init__ self mount [] info []).

Definition pause (self : addr) : M () := pass.

Definition resume (self : addr) : M () := pass.

Definition comment (self : addr) (msg : string) : M () := pass.

Definition move_to (self : addr) (mount : Mount) (location : Location)
    (strategy : option MotionStrategy) : M () :=
  where_ ← lift_res (geometry_point_from_location location);
  hardware_move_to self mount where_.

Definition home (self : addr) : M () :=
  hardware_home self.

(** ** InstrumentContext

    A liquid-handling or tip primitive records that it was entered (the
    history variable [issued]); its body is [pass]. *)
Definition aspirate (self : InstrumentContext)
    (volume : option Q) (location : option Well) (rate : Q) : M () :=
  log_issued self (aspirate_op volume location rate);; pass.

Definition dispense (self : InstrumentContext)
    (volume : option Q) (location : option Well) (rate : Q) : M () :=
  log_issued self (dispense_op volume location rate);; pass.

Definition mix (self : InstrumentContext) (repetitions : Z)
    (volume : option Q) (location : option Well) (rate : Q) : M () :=
  log_issued self (mix_op repetitions volume location rate);; pass.

Definition blow_out (self : InstrumentContext) (location : option Well)
  : M () :=
  log_issued self (blow_out_op location);; pass.

Definition touch_tip (self : InstrumentContext) (location : option Well)
    (radius v_offset speed : Q) : M () :=
  log_issued self (touch_tip_op location radius v_offset speed);; pass.

Definition air_gap (self : InstrumentContext) (volume height : option Q)
  : M () :=
  log_issued self (air_gap_op volume height);; pass.

Definition return_tip (self : InstrumentContext) (home_after : bool)
  : M () :=
  log_issued self (return_tip_op home_after);; pass.

Definition pick_up_tip (self : InstrumentContext) (location : option Well)
    (presses increment : Z) : M () :=
  log_issued self (pick_up_tip_op location presses increment);; pass.

Definition drop_tip (self : InstrumentContext) (location : option Well)
    (home_after : bool) : M () :=
  log_issued self (drop_tip_op location home_after);; pass.

Definition instr_home (self : InstrumentContext) : M InstrumentContext :=
  home (_ctx self);;
  mret self.

Definition distribute (self : InstrumentContext) (volume : Q)
    (source dest : Well) (args : list Q) (kwargs : list (string * string))
  : M () := pass.

Definition consolidate (self : InstrumentContext) (volume : Q)
    (source dest : Well) (args : list Q) (kwargs : list (string * string))
  : M () := pass.

Definition transfer (self : InstrumentContext) (volume : Q)
    (source dest : Well) (kwargs : list (string * string))
  : M () := pass.

Definition instr_move_to (self : InstrumentContext) (location : Location)
    (strategy : option MotionStrategy) : M InstrumentContext :=
  move_to (_ctx self) (_mount self) location strategy;;
  mret self.

Definition mount (self : InstrumentContext) : M string :=
  mret (lower (Mount_name (_mount self))).

Definition speeds (self : InstrumentContext) : M () := pass.

Definition set_speeds (self : InstrumentContext)
    (new_speeds : list (MODE * Q)) : M () := pass.

Definition flow_rate (self : InstrumentContext) : M () := pass.

Definition set_flow_rate (self : InstrumentContext)
    (new_flow_rate : list (MODE * Q)) : M () := pass.

Definition pick_up_current (self : InstrumentContext) : M () := pass.

Definition set_pick_up_current (self : InstrumentContext) (amps : Q)
  : M () := pass.

Definition type (self : InstrumentContext) : M () := pass.

Definition tip_racks (self : InstrumentContext) : M () := pass.

Definition set_tip_racks (self : InstrumentContext) (racks : list Labware)
  : M () := pass.

Definition trash_container (self : InstrumentContext) : M () := pass.

Definition set_trash_container (self : InstrumentContext) (trash : Labware)
  : M () := pass.

Definition name (self : InstrumentContext) : M string :=
  getitem (_info self) "name" "name".

(** ** Scripts: sequences of calls

    What a call evaluates to, for every method and property at once. *)
Inductive Value :=
  | PyNone
  | PyFloat (x : Q)
  | PyStr (s : string)
  | PyLabware (l : Labware)
  | PyDict (items : list (Z * Labware))
  | PyInstrument (ic : InstrumentContext)
  | PyContext (a : addr).

Definition none (m : M ()) : M Value := m;; mret PyNone.

Definition exec_instr (self : InstrumentContext) (op : InstrOp) : M Value :=
  match op with
  | aspirate_op v l r => none (aspirate self v l r)
  | dispense_op v l r => none (dispense self v l r)
  | mix_op n v l r => none (mix self n v l r)
  | blow_out_op l => none (blow_out self l)
  | touch_tip_op l r o s => none (touch_tip self l r o s)
  | air_gap_op v h => none (air_gap self v h)
  | return_tip_op b => none (return_tip self b)
  | pick_up_tip_op l p i => none (pick_up_tip self l p i)
  | drop_tip_op l b => none (drop_tip self l b)
  | instr_home_op => PyInstrument <$> instr_home self
  | distribute_op v s d a k => none (distribute self v s d a k)
  | consolidate_op v s d a k => none (consolidate self v s d a k)
  | transfer_op v s d k => none (transfer self v s d k)
  | instr_move_to_op l s => PyInstrument <$> instr_move_to self l s
  | mount_get => PyStr <$> mount self
  | speeds_get => none (speeds self)
  | speeds_set x => none (set_speeds self x)
  | flow_rate_get => none (flow_rate self)
  | flow_rate_set x => none (set_flow_rate self x)
  | pick_up_current_get => none (pick_up_current self)
  | pick_up_current_set x => none (set_pick_up_current self x)
  | type_get => none (type self)
  | tip_racks_get => none (tip_racks self)
  | tip_racks_set x => none (set_tip_racks self x)
  | trash_container_get => none (trash_container self)
  | trash_container_set x => none (set_trash_container self x)
  | name_get => PyStr <$> name self
  end.

Inductive ProtoOp :=
  | connect_op (hardware : API)
  | disconnect_op
  | load_labware_op (labware_obj : Labware) (location : DeckLocation)
                    (label : option string) (share : bool)
  | load_labware_by_name_op (labware_name : string) (location : DeckLocation)
  | loaded_labwares_get
  | load_instrument_op (instrument_name : string) (mount : Mount)
  | pause_op
  | resume_op
  | comment_op (msg : string)
  | move_to_op (mount : Mount) (location : Location)
               (strategy : option MotionStrategy)
  | home_op.

Definition exec_proto (self : addr) (op : ProtoOp) : M Value :=
  match op with
  | connect_op h => none (connect self h)
  | disconnect_op => none (disconnect self)
  | load_labware_op lw loc label share =>
      PyLabware <$> load_labware self lw loc label share
  | load_labware_by_name_op n loc =>
      PyLabware <$> load_labware_by_name self n loc
  | loaded_labwares_get => PyDict <$> loaded_labwares self
  | load_instrument_op n m => PyInstrument <$> load_instrument self n m
  | pause_op => none (pause self)
  | resume_op => none (resume self)
  | comment_op msg => none (comment self msg)
  | move_to_op m l s => none (move_to self m l s)
  | home_op => none (home self)
  end.

(** One step of a script: a constructor call or a method call on an
    object. *)
Inductive Op :=
  | new_ProtocolContext (hardware : option API)
  | new_InstrumentContext (ctx : addr) (mount : Mount)
      (tip_racks : list Labware) (info : gmap string string)
      (config_kwargs : list (string * string))
  | on_protocol (self : addr) (op : ProtoOp)
  | on_instrument (self : InstrumentContext) (op : InstrOp).

Definition exec (o : Op) : M Value :=
  match o with
  | new_ProtocolContext hardware =>
      PyContext <$> ProtocolContext__init__ hardware
  | new_InstrumentContext ctx mount tip_racks info config_kwargs =>
      mret (PyInstrument (InstrumentContext__init__
                            ctx mount tip_racks info config_kwargs))
  | on_protocol self op => exec_proto self op
  | on_instrument self op => exec_instr self op
  end.

(** A script runs its calls in order; a call that raises leaves the world
    as the exception found it and the script goes on (the most a script
    that catches exceptions can do). *)
Fixpoint run (script : list Op) (w : World) : World :=
  match script with
  | [] => w
  | o :: script' => run script' (exec o w).2
  end.

Definition empty_world : World := mkWorld ∅ [] [].

End Model.

(** ** A simulated driver

    Modelled from the spec: the simulated variant of the driver (section 6).
    Its state is the metadata dictionary of what sits on the left and on
    the right mount (empty when nothing is attached).  [cache_instruments]
    fails with [InstrumentMismatch] when a requested name differs from the
    name of what is attached on that mount, and otherwise leaves the
    attachment as it is; motion and homing succeed.  Points are coordinate
    triples. *)
Definition sim_info (h : gmap string string * gmap string string)
    (m : Mount) : gmap string string :=
  match m with LEFT => h.1 | RIGHT => h.2 end.

Definition sim_name (h : gmap string string * gmap string string)
    (m : Mount) : option string :=
  sim_info h m !! "name".

Definition sim_contradicts (requested : gmap Mount (option string))
    (h : gmap string string * gmap string string) (m : Mount) : bool :=
  match requested !! m, sim_name h m with
  | Some (Some wanted), Some found => bool_decide (found ≠ wanted)
  | _, _ => false
  end.

Definition sim_cache_instruments
    (requested : option (gmap Mount (option string)))
    (h : gmap string string * gmap string string)
  : Res () * (gmap string string * gmap string string) :=
  match requested with
  | None => (Returns (), h)
  | Some requested =>
      if existsb (sim_contradicts requested h) (enum Mount)
      then (Raises InstrumentMismatch, h)
      else (Returns (), h)
  end.

Definition simulator : Collaborators := {|
  API := gmap string string * gmap string string;
  Point := Z * Z * Z;
  Location := Z * Z * Z;
  MotionStrategy := unit;
  hc_build_hardware_simulator := (∅, ∅);
  hc_attached_instruments := λ h, {[ LEFT := h.1; RIGHT := h.2 ]};
  hc_cache_instruments := sim_cache_instruments;
  hc_move_to := λ _ _ h, (Returns (), h);
  hc_home := λ h, (Returns (), h);
  hc_physically_attached := sim_name;
  geometry_point_from_location := λ l, Returns l;
  Deck_position_for := λ slot, Returns (slot, 0, 0);
  labware_load := λ name _, Returns (String.length name)
|}.

(** A simulated robot with a ["p300_single"] on the left mount and nothing
    on the right. *)
Definition p300_left : gmap string string * gmap string string :=
  ({[ "name" := "p300_single" ]}, ∅).

Section Statements.
Context `{C : Collaborators}.

(** ** Notions used to state the properties *)

(** The liquid-handling primitives. *)
Definition liquid_handling (op : InstrOp) : bool :=
  match op with
  | aspirate_op _ _ _ | dispense_op _ _ _ | mix_op _ _ _ _
  | blow_out_op _ | touch_tip_op _ _ _ _ | air_gap_op _ _ => true
  | _ => false
  end.

(** The configuration getters and setters. *)
Definition configuration_accessor (op : InstrOp) : bool :=
  match op with
  | mount_get | speeds_get | speeds_set _ | flow_rate_get | flow_rate_set _
  | pick_up_current_get | pick_up_current_set _ | type_get
  | tip_racks_get | tip_racks_set _
  | trash_container_get | trash_container_set _ | name_get => true
  | _ => false
  end.

(** The volume an aspirate or a dispense moves. *)
Definition liquid_volume (op : InstrOp) : option (MODE * Q) :=
  match op with
  | aspirate_op (Some v) _ _ => Some (ASPIRATE, v)
  | dispense_op (Some v) _ _ => Some (DISPENSE, v)
  | _ => None
  end.

(** The primitives entered between two readings of the history. *)
Definition issued_since (before after : World) : list InstrOp :=
  snd <$> drop (length (issued before)) (issued after).

(** The splitting the specification asks of [transfer]: the aspirates and
    dispenses issued are [ceil (volume / capacity)] aspirate-then-dispense
    pairs, each of at most [capacity], adding up to [volume]. *)
Definition splits_into_sub_transfers (capacity volume : Q)
    (ops : list InstrOp) : Prop :=
  ∃ vs : list Q,
    omap liquid_volume ops = vs ≫= (λ v, [(ASPIRATE, v); (DISPENSE, v)])
    ∧ Z.of_nat (length vs) = Qceiling (volume / capacity)
    ∧ Forall (λ v, (v <= capacity)%Q) vs
    ∧ (foldr Qplus 0%Q vs == volume)%Q.

(** The requested names handed to [cache_instruments] by
    [load_instrument]: the names of what the driver reports, with the
    requested name at [mount]. *)
Definition overlay (h : API) (instrument_name : string) (mount : Mount)
  : gmap Mount (option string) :=
  <[mount := Some instrument_name]>
    ((λ instr : gmap string string, instr !! "name")
       <$> hc_attached_instruments h).

(** The results of a sequence of calls on one instrument, with the world
    they leave. *)
Fixpoint run_instr (self : InstrumentContext) (ops : list InstrOp)
    (w : World) : list (Res Value) * World :=
  match ops with
  | [] => ([], w)
  | op :: ops' =>
      let '(r, w') := exec_instr self op w in
      let '(rs, w'') := run_instr self ops' w' in
      (r :: rs, w'')
  end.

(** Every mount of a context maps to the empty slot. *)
Definition all_mounts_empty (c : ProtocolContext) : Prop :=
  ∀ m : Mount, _instruments c !! m = Some None.

(** From [w] to [w'] no object left the heap, no [_instruments] mapping of
    an object of [w] was written, and an object that is new in [w'] has
    every mount empty. *)
Definition keeps_instruments (w w' : World) : Prop :=
  ∀ a : addr,
    match heap w !! a, heap w' !! a with
    | Some c, Some c' => _instruments c' = _instruments c
    | Some _, None => False
    | None, Some c' => all_mounts_empty c'
    | None, None => True
    end.

Definition instruments_untouched {A} (m : M A) : Prop :=
  ∀ w, keeps_instruments w (m w).2.

End Statements.

(** ** Concrete worlds on the simulated driver *)
Section Examples.
Local Existing Instance simulator.

(** A context on the simulated robot [p300_left]; it sits at address 0. *)
Definition robot_script : list Op :=
  [new_ProtocolContext (Some p300_left)].

Definition robot_world : World := run robot_script empty_world.

(** The same, with labware 7 loaded in slot 1. *)
Definition plate_world : World :=
  run (robot_script ++ [on_protocol 0%nat (load_labware_op 7%nat 1 None false)])
      empty_world.

(** The context object of [robot_world]. *)
Definition robot_context : ProtocolContext :=
  mkProtocolContext (C := simulator) p300_left ∅
    {[ LEFT := None; RIGHT := None ]}.

(** The context object of [plate_world]. *)
Definition plate_context : ProtocolContext :=
  mkProtocolContext (C := simulator) p300_left {[ 1 := 7%nat ]}
    {[ LEFT := None; RIGHT := None ]}.

(** An instrument context as [load_instrument] hands it out. *)
Definition pipette : InstrumentContext :=
  InstrumentContext__init__ 0%nat LEFT [] {[ "name" := "p300_single" ]} [].

End Examples.

(** ** Notions for the frame properties of the two classes *)
Section FrameStatements.
Context `{C : Collaborators}.

(** The object at [a] is still there in [w'] and its attribute [proj] is
    what it was in [w]. *)
Definition keeps_field {F} (proj : ProtocolContext → F) (a : addr)
    (w w' : World) : Prop :=
  ∀ c, heap w !! a = Some c →
       ∃ c', heap w' !! a = Some c' ∧ proj c' = proj c.

Definition field_kept {A F} (proj : ProtocolContext → F) (a : addr)
    (m : M A) : Prop :=
  ∀ w, keeps_field proj a w (m w).2.

(** The calls that assign into the deck of the context at [a]. *)
Definition loads_into (o : Op) (a : addr) : bool :=
  match o with
  | on_protocol self (load_labware_op _ _ _ _)
  | on_protocol self (load_labware_by_name_op _ _) => bool_decide (self = a)
  | _ => false
  end.

(** The calls whose body goes to [self._hardware], directly or through
    [self._ctx]. *)
Definition reaches_driver (o : Op) : bool :=
  match o with
  | on_protocol _ (connect_op _) | on_protocol _ disconnect_op
  | on_protocol _ (load_instrument_op _ _)
  | on_protocol _ (move_to_op _ _ _) | on_protocol _ home_op
  | on_instrument _ instr_home_op
  | on_instrument _ (instr_move_to_op _ _) => true
  | _ => false
  end.

(** The two methods of [InstrumentContext] that call their protocol
    context. *)
Definition delegates (op : InstrOp) : bool :=
  match op with
  | instr_home_op | instr_move_to_op _ _ => true
  | _ => false
  end.

(** What a method call that returns [self] gives for the outcome [r] of
    the call it wraps. *)
Definition returning {A} (self : InstrumentContext) (r : Res A)
  : Res InstrumentContext :=
  match r with Returns _ => Returns self | Raises e => Raises e end.

End FrameStatements.

(** A driver that reports no mount at all and accepts every request; it
    shows [load_instrument] on an attachment map without the mount. *)
Definition bare_driver : Collaborators := {|
  API := unit;
  Point := unit;
  Location := unit;
  MotionStrategy := unit;
  hc_build_hardware_simulator := ();
  hc_attached_instruments := λ _, ∅;
  hc_cache_instruments := λ _ h, (Returns (), h);
  hc_move_to := λ _ _ h, (Returns (), h);
  hc_home := λ h, (Returns (), h);
  hc_physically_attached := λ _ _, None;
  geometry_point_from_location := λ l, Returns l;
  Deck_position_for := λ _, Raises UnknownLabware;
  labware_load := λ _ _, Raises UnknownLabware
|}.

(** * The update lock: [api/opentrons/system/resin.py]

    [lock_updates] and [unlock_updates] work on the environment and on one
    file.  The operating system is a collaborator: opening, writing,
    locking, closing, testing and removing are operations of an interface
    ([OS]) that may change the file system and may raise.  The history
    variable [os_calls] records the operations in the order they were
    made; [warnings] is what was sent to [log.warning].

    Conventions: [import fcntl] succeeds (the branch runs on the robot
    only); an operation that waits, as [flock] on a file locked elsewhere,
    is taken at the moment it comes back; [log.warning] does not raise. *)
Module Resin.

Inductive PyExn :=
  | OSError (errno : Z)
  | OtherError (what : string).

Inductive Out (A : Type) :=
  | Done (a : A)
  | Failed (e : PyExn).
Arguments Done {A} a.
Arguments Failed {A} e.

Inductive OsCall :=
  | open_call (path mode : string)
  | write_call (data : string)
  | flock_call
  | close_call
  | exists_call (path : string)
  | remove_call (path : string).

(** [FS] is the state of the file system and [File] an open file object.
    [os.path.exists] does not raise. *)
Class OS := {
  FS : Type;
  File : Type;
  os_open : string → string → FS → Out File * FS;
  file_write : File → string → FS → Out () * FS;
  fcntl_flock_ex : File → FS → Out () * FS;
  file_close : File → FS → Out () * FS;
  os_path_exists : string → FS → bool;
  os_remove : string → FS → Out () * FS
}.

Section Model.
Context `{O : OS}.

Record World := mkWorld {
  environ : gmap string string;
  fs : FS;
  os_calls : list OsCall;
  warnings : list string
}.

Definition M (A : Type) : Type := World → Out A * World.

#[global] Instance M_ret : MRet M := λ A a w, (Done a, w).

#[global] Instance M_bind : MBind M := λ A B f m w,
  match m w with
  | (Done a, w') => f a w'
  | (Failed e, w') => (Failed e, w')
  end.

Definition pass : M () := mret ().

(** An operation of the system: it is recorded, the file system takes its
    new state, and the result or the exception comes back. *)
Definition sys {A} (c : OsCall) (f : FS → Out A * FS) : M A :=
  λ w, let '(r, fs') := f (fs w) in
       (r, mkWorld (environ w) fs' (os_calls w ++ [c]) (warnings w)).

(** [os.environ.get(key)]. *)
Definition environ_get (key : string) : M (option string) :=
  λ w, (Done (environ w !! key), w).

(** The truth value of [os.environ.get(key)]: [None] and the empty string
    are false, every other string is true. *)
Definition truthy (v : option string) : bool :=
  match v with
  | Some (String _ _) => true
  | _ => false
  end.

Definition path_exists (path : string) : M bool :=
  sys (exists_call path) (λ s, (Done (os_path_exists path s), s)).

Definition log_warning (msg : string) : M () :=
  λ w, (Done (),
        mkWorld (environ w) (fs w) (os_calls w) (warnings w ++ [msg])).

(** Leaving a [with] block of an open file: the file is closed, also when
    the body raised; an exception of that closing takes the place of the
    one of the body. *)
Definition leaving (fd : File) (body : M ()) : M () :=
  λ w, match body w with
       | (Done _, w') => sys close_call (file_close fd) w'
       | (Failed e, w') =>
           match sys close_call (file_close fd) w' with
           | (Done _, w'') => (Failed e, w'')
           | (Failed e', w'') => (Failed e', w'')
           end
       end.

(** [with open(path, mode) as fd: body]. *)
Definition with_open (path mode : string) (body : File → M ()) : M () :=
  fd ← sys (open_call path mode) (os_open path mode);
  leaving fd (body fd).

(** [try: m  except OSError: handler]. *)
Definition try_except_OSError (m handler : M ()) : M () :=
  λ w, match m w with
       | (Failed (OSError _), w') => handler w'
       | r => r
       end.

Definition lock_file_path : string := "/tmp/resin/resin-updates.lock".

Definition lock_updates : M () :=
  v ← environ_get "RUNNING_ON_PI";
  if truthy v then
    try_except_OSError
      (with_open lock_file_path "w" (λ fd,
         sys (write_call "a") (file_write fd "a");;
         sys flock_call (fcntl_flock_ex fd);;
         sys close_call (file_close fd)))
      (log_warning "Unable to create resin-update lock file")
  else pass.

Definition unlock_updates : M () :=
  v ← environ_get "RUNNING_ON_PI";
  if truthy v then
    path_exists lock_file_path ≫= λ found : bool,
    if found then sys (remove_call lock_file_path) (os_remove lock_file_path)
    else pass
  else pass.

End Model.

(** A small file system, for examples: whether the directory of the lock
    file is there, and the contents of the files.  Opening for writing
    needs the directory and leaves the file empty; removing needs the
    file. *)
Definition disk : OS := {|
  FS := bool * gmap string string;
  File := string;
  os_open := λ path _ s,
    if s.1 then (Done path, (true, <[path := ""]> s.2))
    else (Failed (OSError 2), s);
  file_write := λ f data s,
    (Done (), (s.1, alter (λ old, old +:+ data) f s.2));
  fcntl_flock_ex := λ _ s, (Done (), s);
  file_close := λ _ s, (Done (), s);
  os_path_exists := λ path s, bool_decide (is_Some (s.2 !! path));
  os_remove := λ path s,
    if bool_decide (is_Some (s.2 !! path))
    then (Done (), (s.1, delete path s.2))
    else (Failed (OSError 2), s)
|}.

(** On the robot, with the directory in place and no lock file. *)
Definition on_pi : @World disk :=
  mkWorld (O := disk) {[ "RUNNING_ON_PI" := "true" ]} (true, ∅) [] [].

(** On the robot, without the directory. *)
Definition on_pi_no_dir : @World disk :=
  mkWorld (O := disk) {[ "RUNNING_ON_PI" := "1" ]} (false, ∅) [] [].

(** On a desk, where the variable is set to the empty string. *)
Definition off_pi : @World disk :=
  mkWorld (O := disk) {[ "RUNNING_ON_PI" := "" ]} (true, ∅) [] [].

End Resin.

(** * Proofs *)

Ltac unfold_monad :=
  unfold none, pass, raise, lift_res, log_issued, log_driver, getitem,
    fmap, M_fmap, mbind, M_bind, mret, M_ret in *.

(** ** The [_instruments] mapping is never written *)
Section Instruments.
Context `{C : Collaborators}.

Lemma keeps_instruments_refl w : keeps_instruments w w.
Proof. intros a. by destruct (heap w !! a). Qed.

Lemma keeps_instruments_trans w1 w2 w3 :
  keeps_instruments w1 w2 → keeps_instruments w2 w3 →
  keeps_instruments w1 w3.
Proof.
  intros H12 H23 a. specialize (H12 a). specialize (H23 a).
  destruct (heap w1 !! a), (heap w2 !! a), (heap w3 !! a);
    first [done | congruence | intros m; rewrite H23; apply H12].
Qed.

Lemma untouched_ret {A} (a : A) : instruments_untouched (mret a : M A).
Proof. intros w. apply keeps_instruments_refl. Qed.

Lemma untouched_raise {A} e : instruments_untouched (raise e : M A).
Proof. intros w. apply keeps_instruments_refl. Qed.

Lemma untouched_bind {A B} (m : M A) (f : A → M B) :
  instruments_untouched m → (∀ a, instruments_untouched (f a)) →
  instruments_untouched (m ≫= f).
Proof.
  intros Hm Hf w. specialize (Hm w). unfold mbind, M_bind.
  destruct (m w) as [[a|e] w'] eqn:E; simpl in *; [|done].
  eapply keeps_instruments_trans; [exact Hm | apply Hf].
Qed.

Lemma untouched_fmap {A B} (g : A → B) (m : M A) :
  instruments_untouched m → instruments_untouched (g <$> m).
Proof.
  intros Hm. unfold fmap, M_fmap.
  apply untouched_bind; [done | intros; apply untouched_ret].
Qed.

Lemma untouched_none (m : M ()) :
  instruments_untouched m → instruments_untouched (none m).
Proof.
  intros Hm. apply untouched_bind; [done | intros; apply untouched_ret].
Qed.

Lemma untouched_lift_res {A} (r : Res A) : instruments_untouched (lift_res r).
Proof. destruct r; [apply untouched_ret | apply untouched_raise]. Qed.

Lemma untouched_get_attr {A} self (f : ProtocolContext → A) :
  instruments_untouched (get_attr self f).
Proof.
  intros w. unfold get_attr.
  destruct (heap w !! self); apply keeps_instruments_refl.
Qed.

Lemma untouched_set_attr self (f : ProtocolContext → ProtocolContext) :
  (∀ c, _instruments (f c) = _instruments c) →
  instruments_untouched (set_attr self f).
Proof.
  intros Hf w. unfold set_attr.
  destruct (heap w !! self) as [c|] eqn:E; [|apply keeps_instruments_refl].
  intros a. simpl. destruct (decide (a = self)) as [->|Hne].
  - rewrite E, lookup_insert_eq. apply Hf.
  - rewrite lookup_insert_ne by done. by destruct (heap w !! a).
Qed.

Lemma untouched_log_driver c : instruments_untouched (log_driver c).
Proof. intros w a. simpl. by destruct (heap w !! a). Qed.

Lemma untouched_log_issued ic op : instruments_untouched (log_issued ic op).
Proof. intros w a. simpl. by destruct (heap w !! a). Qed.

Lemma untouched_getitem {K A} `{Countable K} (d : gmap K A) k shown :
  instruments_untouched (getitem d k shown).
Proof.
  unfold getitem. destruct (d !! k); [apply untouched_ret | apply untouched_raise].
Qed.

Create HintDb untouched.

#[local] Hint Resolve untouched_ret untouched_raise untouched_lift_res
  untouched_get_attr untouched_log_driver untouched_log_issued
  untouched_getitem untouched_fmap untouched_none untouched_bind
  : untouched.

Lemma untouched_set_hardware self h :
  instruments_untouched (set_attr self (set_hardware h)).
Proof. by apply untouched_set_attr. Qed.

Lemma untouched_on_hardware self c f :
  instruments_untouched (on_hardware self c f).
Proof.
  unfold on_hardware. apply untouched_bind; [auto with untouched|].
  intros h. apply untouched_bind; [auto with untouched|]. intros _.
  destruct (f h) as [r h'].
  apply untouched_bind; [apply untouched_set_hardware | auto with untouched].
Qed.

#[local] Hint Resolve untouched_set_hardware untouched_on_hardware
  : untouched.

Lemma untouched_hardware_attached_instruments self :
  instruments_untouched (hardware_attached_instruments self).
Proof. unfold hardware_attached_instruments. auto 6 with untouched. Qed.

Lemma untouched_load_labware self labware_obj location label share :
  instruments_untouched (load_labware self labware_obj location label share).
Proof.
  unfold load_labware.
  apply untouched_bind; [auto with untouched|]. intros deck.
  apply untouched_bind; [auto with untouched|]. intros deck'.
  apply untouched_bind; [|auto with untouched].
  by apply untouched_set_attr.
Qed.

#[local] Hint Resolve untouched_hardware_attached_instruments
  untouched_load_labware : untouched.

Lemma untouched_exec_proto self op :
  instruments_untouched (exec_proto self op).
Proof.
  destruct op; simpl;
    unfold connect, disconnect, connect, load_labware_by_name,
      loaded_labwares, load_instrument, pause, resume, comment, move_to,
      home, hardware_cache_instruments, hardware_move_to, hardware_home,
      pass;
    auto 10 with untouched.
Qed.

Lemma untouched_exec_instr self op :
  instruments_untouched (exec_instr self op).
Proof.
  destruct op; simpl;
    unfold aspirate, dispense, mix, blow_out, touch_tip, air_gap,
      return_tip, pick_up_tip, drop_tip, instr_home, distribute,
      consolidate, transfer, instr_move_to, mount, speeds, set_speeds,
      flow_rate, set_flow_rate, pick_up_current, set_pick_up_current,
      type, tip_racks, set_tip_racks, trash_container,
      set_trash_container, name, home, move_to, hardware_move_to,
      hardware_home, pass;
    auto 10 with untouched.
Qed.

Lemma new_context_all_mounts_empty hardware deck :
  all_mounts_empty
    (mkProtocolContext hardware deck
       (list_to_map ((λ mount, (mount, None)) <$> enum Mount))).
Proof. by intros []. Qed.

Lemma untouched_ProtocolContext__init__ hardware :
  instruments_untouched (ProtocolContext__init__ hardware).
Proof.
  intros w a. unfold ProtocolContext__init__. simpl.
  pose proof (is_fresh (dom (heap w))) as Hfresh.
  apply not_elem_of_dom in Hfresh.
  destruct (decide (a = fresh (dom (heap w)))) as [->|Hne].
  - rewrite Hfresh, lookup_insert_eq. apply new_context_all_mounts_empty.
  - rewrite lookup_insert_ne by done. by destruct (heap w !! a).
Qed.

Lemma untouched_exec o : instruments_untouched (exec o).
Proof.
  destruct o; simpl.
  - apply untouched_fmap, untouched_ProtocolContext__init__.
  - apply untouched_ret.
  - apply untouched_exec_proto.
  - apply untouched_exec_instr.
Qed.

Lemma keeps_instruments_run script w : keeps_instruments w (run script w).
Proof.
  revert w. induction script as [|o script IH]; intros w; simpl.
  - apply keeps_instruments_refl.
  - eapply keeps_instruments_trans; [apply untouched_exec | apply IH].
Qed.

End Instruments.

(** ** Claims about the instrument mapping and the constructor *)
Section ClaimsInstruments.
Context `{C : Collaborators}.

(** C9.  The mapping from mount to instrument context of a protocol
    context starts with every mount at the empty slot and no call of a
    script writes it, a successful [load_instrument] included: in every
    world a script reaches, every mount of every context is empty. *)
Theorem instruments_never_written
    (script : list Op) (self : addr) (c : ProtocolContext) :
  heap (run script empty_world) !! self = Some c →
  all_mounts_empty c.
Proof.
  intros Hc. pose proof (keeps_instruments_run script empty_world self) as K.
  rewrite Hc in K. simpl in K. by rewrite lookup_empty in K.
Qed.

(** C10.  The constructor of [InstrumentContext] keeps the context, the
    info and the mount and nothing else: two constructions that differ in
    [tip_racks] or in the extra keyword arguments only give the same
    results and the same world on every sequence of calls. *)
Theorem tip_racks_and_kwargs_have_no_effect
    (ctx : addr) (mount : Mount) (info : gmap string string)
    (tip_racks1 tip_racks2 : list Labware)
    (kwargs1 kwargs2 : list (string * string))
    (ops : list InstrOp) (w : World) :
  InstrumentContext__init__ ctx mount tip_racks1 info kwargs1
    = mkInstrumentContext ctx info mount
  ∧ run_instr (InstrumentContext__init__ ctx mount tip_racks1 info kwargs1)
              ops w
    = run_instr (InstrumentContext__init__ ctx mount tip_racks2 info kwargs2)
                ops w.
Proof. split; reflexivity. Qed.

End ClaimsInstruments.

(** C9, on the simulated robot: after a successful [load_instrument] the
    context at address 0 still has both mounts empty. *)
Lemma instruments_never_written_witness :
  ∃ c : @ProtocolContext simulator,
    (load_instrument (C := simulator) 0%nat "p300_single" LEFT
       robot_world).1
      = Returns pipette
    ∧ heap (run (robot_script
                   ++ [on_protocol 0%nat
                         (load_instrument_op "p300_single" LEFT)])
                empty_world) !! 0%nat = Some c
    ∧ all_mounts_empty c.
Proof.
  eexists. split; [by vm_compute|]. split; [by vm_compute|].
  eapply (instruments_never_written (C := simulator)
            (robot_script
               ++ [on_protocol 0%nat (load_instrument_op "p300_single" LEFT)])
            0%nat).
  by vm_compute.
Defined.

(** ** Claims about placeholders: bodies that are [pass] *)
Section ClaimsPlaceholders.
Context `{C : Collaborators}.

(** C1, as the code has it: [transfer] is a placeholder.  For every
    volume, also one above the capacity, it enters no aspirate and no
    dispense, makes no driver call and leaves every object as it was. *)
Theorem transfer_issues_nothing
    (self : InstrumentContext) (volume : Q) (source dest : Well)
    (kwargs : list (string * string)) (w : World) :
  transfer self volume source dest kwargs w = (Returns (), w)
  ∧ issued_since w (transfer self volume source dest kwargs w).2 = [].
Proof.
  split; [reflexivity|]. unfold issued_since. simpl.
  by rewrite drop_all.
Qed.

(** C2, as the code has it: a liquid-handling primitive succeeds in every
    world, whether or not [pick_up_tip] was called before; it changes no
    object and makes no driver call. *)
Theorem liquid_handling_succeeds_in_every_state
    (self : InstrumentContext) (op : InstrOp) (w : World) :
  liquid_handling op = true →
  exec_instr self op w
    = (Returns PyNone,
       mkWorld (heap w) (driver_calls w) (issued w ++ [(self, op)])).
Proof. destruct op; intros Hop; try discriminate Hop; reflexivity. Qed.

(** C6, what the code does: the setter of [pick_up_current] accepts 2.5
    without raising, and after a set to 1.0 the getter evaluates to [None]:
    no value is stored. *)
Theorem pick_up_current_is_not_stored
    (self : InstrumentContext) (w : World) :
  exec_instr self (pick_up_current_set (5 # 2)) w = (Returns PyNone, w)
  ∧ run_instr self [pick_up_current_set 1; pick_up_current_get] w
    = ([Returns PyNone; Returns PyNone], w).
Proof. split; reflexivity. Qed.

(** C7, what the code does: [pause] returns at once, with no [resume]
    anywhere, and leaves the world as it was; so does [resume]. *)
Theorem pause_returns_at_once (self : addr) (w : World) :
  pause self w = (Returns (), w)
  ∧ resume self w = (Returns (), w)
  ∧ run [on_protocol self pause_op] w = w.
Proof. repeat split; reflexivity. Qed.

(** C8.  [comment] changes nothing at all; [load_labware] makes no driver
    call and leaves the driver and the instrument mapping of every context
    as they were; a configuration getter or setter changes nothing at
    all.  None of them reaches the driver. *)
Theorem local_operations_make_no_driver_call
    (self : addr) (msg : string) (labware_obj : Labware)
    (location : DeckLocation) (label : option string) (share : bool)
    (ic : InstrumentContext) (op : InstrOp) (w : World) :
  configuration_accessor op = true →
  comment self msg w = (Returns (), w)
  ∧ driver_calls (load_labware self labware_obj location label share w).2
    = driver_calls w
  ∧ (∀ a c,
       heap w !! a = Some c →
       ∃ c', heap (load_labware self labware_obj location label share w).2
               !! a = Some c'
             ∧ _hardware c' = _hardware c
             ∧ _instruments c' = _instruments c)
  ∧ (exec_instr ic op w).2 = w.
Proof.
  intros Hop. split; [reflexivity|]. split; [|split].
  - unfold load_labware, get_attr, set_attr, Deck_setitem.
    unfold_monad. unfold_monad.
    destruct (heap w !! self) as [c0|] eqn:E; simpl; [|done].
    destruct (_deck_layout c0 !! location); simpl; [done|].
    by rewrite E.
  - intros a c Ha. unfold load_labware, get_attr, set_attr, Deck_setitem.
    unfold_monad. unfold_monad.
    destruct (heap w !! self) as [c0|] eqn:E; simpl; [|eauto].
    destruct (_deck_layout c0 !! location); simpl; [eauto|].
    rewrite E. simpl.
    destruct (decide (a = self)) as [->|Hne].
    + rewrite lookup_insert_eq. simplify_eq. eauto.
    + rewrite lookup_insert_ne by done. eauto.
  - destruct op; try discriminate Hop; try reflexivity.
    simpl. unfold name. unfold_monad.
    by destruct (_info ic !! "name").
Qed.

End ClaimsPlaceholders.

(** ** The placeholders on the simulated robot *)
Section PlaceholderExamples.
Local Existing Instance simulator.

(** C1 fails on the code: with a capacity of 100 and a volume of 250 the
    specification asks for three aspirate-then-dispense pairs; [transfer]
    issues none. *)
Lemma transfer_split_counterexample :
  (100 < 250)%Q
  ∧ ¬ splits_into_sub_transfers 100 250
        (issued_since robot_world
           (transfer pipette 250 1%nat 2%nat [] robot_world).2).
Proof.
  split; [done|]. intros (vs & Hops & Hlen & _).
  destruct vs as [|v vs]; [|discriminate Hops].
  vm_compute in Hlen. discriminate Hlen.
Qed.

(** C2 fails on the code: on a context that never picked up a tip,
    [aspirate] returns [None] and does not raise [NoTipAttached]. *)
Lemma aspirate_without_tip_counterexample :
  issued robot_world = []
  ∧ (exec_instr pipette (aspirate_op (Some 50%Q) (Some 1%nat) 1) robot_world).1
    = Returns PyNone
  ∧ (exec_instr pipette (aspirate_op (Some 50%Q) (Some 1%nat) 1) robot_world).1
    ≠ Raises NoTipAttached.
Proof.
  split; [by vm_compute|]. split; [by vm_compute|].
  vm_compute. discriminate.
Qed.

(** C2, on the simulated robot: [aspirate] before any [pick_up_tip]. *)
Lemma liquid_handling_succeeds_in_every_state_witness :
  liquid_handling (C := simulator) (aspirate_op (Some 50%Q) (Some 1%nat) 1)
    = true
  ∧ exec_instr pipette (aspirate_op (Some 50%Q) (Some 1%nat) 1) robot_world
    = (Returns PyNone,
       mkWorld (heap robot_world) (driver_calls robot_world)
         (issued robot_world
            ++ [(pipette, aspirate_op (Some 50%Q) (Some 1%nat) 1)])).
Proof.
  split; [reflexivity|].
  apply (liquid_handling_succeeds_in_every_state
           pipette (aspirate_op (Some 50%Q) (Some 1%nat) 1) robot_world).
  reflexivity.
Defined.

(** C8, on the simulated robot, with the setter of [speeds] as the
    configuration accessor. *)
Lemma local_operations_make_no_driver_call_witness :
  configuration_accessor (C := simulator) (speeds_set [(ASPIRATE, 10%Q)])
    = true
  ∧ comment 0%nat "mixing" robot_world = (Returns (), robot_world)
  ∧ driver_calls (load_labware 0%nat 7%nat 1 None false robot_world).2
    = driver_calls robot_world
  ∧ (exec_instr pipette (speeds_set [(ASPIRATE, 10%Q)]) robot_world).2
    = robot_world.
Proof.
  split; [reflexivity|].
  destruct (local_operations_make_no_driver_call
              0%nat "mixing" 7%nat 1 None false pipette
              (speeds_set [(ASPIRATE, 10%Q)]) robot_world eq_refl)
    as (Hcomment & Hcalls & _ & Hop).
  auto.
Defined.

End PlaceholderExamples.

(** ** The deck: loading labware and reading it back *)

#[local] Instance loc_le_transitive : Transitive loc_le.
Proof. intros p q r. unfold loc_le. lia. Qed.

#[local] Instance loc_le_total : Total loc_le.
Proof. intros p q. unfold loc_le. lia. Qed.

Lemma Deck_items_elem (d : gmap Z Labware) (l : Z) (x : Labware) :
  (l, x) ∈ Deck_items d ↔ d !! l = Some x.
Proof.
  unfold Deck_items. rewrite merge_sort_Permutation.
  apply elem_of_map_to_list.
Qed.

Lemma Deck_items_NoDup (d : gmap Z Labware) : NoDup (Deck_items d).*1.
Proof.
  unfold Deck_items. rewrite merge_sort_Permutation.
  apply NoDup_fst_map_to_list.
Qed.

Lemma sorted_distinct_strict (l : list (Z * Labware)) :
  StronglySorted loc_le l → NoDup l.*1 →
  StronglySorted (λ p q, p.1 < q.1) l.
Proof.
  induction 1 as [|p l Hl IH Hp]; intros Hnd; [constructor|].
  apply NoDup_cons in Hnd as [Hnotin Hnd]. constructor; [auto|].
  apply Forall_forall. intros q Hq.
  rewrite Forall_forall in Hp. specialize (Hp q Hq). unfold loc_le in Hp.
  assert (p.1 ≠ q.1); [|lia].
  intros Heq. apply Hnotin. rewrite Heq. by apply list_elem_of_fmap_2.
Qed.

Lemma Deck_items_sorted (d : gmap Z Labware) :
  StronglySorted (λ p q, p.1 < q.1) (Deck_items d).
Proof.
  apply sorted_distinct_strict; [|apply Deck_items_NoDup].
  apply StronglySorted_merge_sort; apply _.
Qed.

Section ClaimsDeck.
Context `{C : Collaborators}.

Lemma load_labware_eq self c labware_obj location label share w :
  heap w !! self = Some c →
  _deck_layout c !! location = None →
  load_labware self labware_obj location label share w
    = (Returns labware_obj,
       set_heap
         (<[self := set_deck_layout
                      (<[location := labware_obj]> (_deck_layout c)) c]>
            (heap w)) w).
Proof.
  intros Hc Hfree. unfold load_labware, get_attr, set_attr, Deck_setitem.
  unfold_monad. unfold_monad. rewrite Hc. simpl. rewrite Hfree. simpl.
  by rewrite Hc.
Qed.

Lemma load_labware_populated_eq self c labware_obj location label share w :
  heap w !! self = Some c →
  is_Some (_deck_layout c !! location) →
  load_labware self labware_obj location label share w
    = (Raises LocationOccupied, w).
Proof.
  intros Hc [held Hheld].
  unfold load_labware, get_attr, set_attr, Deck_setitem.
  unfold_monad. unfold_monad. rewrite Hc. simpl. by rewrite Hheld.
Qed.

(** C3.  On a location that is already populated, [load_labware] with
    [share=False] fails with [LocationOccupied]: the deck rejects the
    assignment.  Nothing was changed; the deck still holds at that location
    what it held. *)
Theorem load_labware_rejects_populated_location
    (self : addr) (c : ProtocolContext) (labware_obj : Labware)
    (location : DeckLocation) (label : option string) (w : World) :
  heap w !! self = Some c →
  is_Some (_deck_layout c !! location) →
  load_labware self labware_obj location label false w
    = (Raises LocationOccupied, w)
  ∧ ∃ c' : ProtocolContext,
      heap (load_labware self labware_obj location label false w).2 !! self
        = Some c'
      ∧ _deck_layout c' !! location = _deck_layout c !! location.
Proof.
  intros Hc Hheld.
  rewrite (load_labware_populated_eq self c labware_obj location label false
             w Hc Hheld).
  split; [reflexivity|]. simpl. eauto.
Qed.

(** C5.  On a free location [load_labware] returns the labware it was
    given, and [loaded_labwares] read afterwards is a list of
    location-labware pairs that holds exactly the contents of the deck,
    has that labware at that location and no other, and is in strictly
    increasing order of location. *)
Theorem load_labware_then_loaded_labwares
    (self : addr) (c : ProtocolContext) (labware_obj : Labware)
    (location : DeckLocation) (label : option string) (share : bool)
    (w : World) :
  heap w !! self = Some c →
  _deck_layout c !! location = None →
  ∃ (w' : World) (items : list (Z * Labware)),
    load_labware self labware_obj location label share w
      = (Returns labware_obj, w')
    ∧ loaded_labwares self w' = (Returns items, w')
    ∧ (location, labware_obj) ∈ items
    ∧ (∀ x, (location, x) ∈ items → x = labware_obj)
    ∧ (∀ l x, (l, x) ∈ items ↔
              <[location := labware_obj]> (_deck_layout c) !! l = Some x)
    ∧ StronglySorted (λ p q, p.1 < q.1) items.
Proof.
  intros Hc Hfree. eexists _, _. split; [by apply load_labware_eq|].
  split.
  { unfold loaded_labwares, get_attr. unfold_monad. simpl.
    rewrite lookup_insert_eq. reflexivity. }
  simpl. repeat split.
  - apply Deck_items_elem, lookup_insert_eq.
  - intros x Hx%Deck_items_elem. rewrite lookup_insert_eq in Hx. congruence.
  - apply Deck_items_elem.
  - apply Deck_items_elem.
  - apply Deck_items_sorted.
Qed.

End ClaimsDeck.

Section DeckExamples.
Local Existing Instance simulator.

(** C3, on the simulated robot: slot 1 holds labware 7, and loading
    labware 8 there with [share=False] fails and changes nothing. *)
Lemma load_labware_rejects_populated_location_witness :
  heap plate_world !! 0%nat = Some plate_context
  ∧ _deck_layout plate_context !! 1 = Some 7%nat
  ∧ load_labware 0%nat 8%nat 1 None false plate_world
    = (Raises LocationOccupied, plate_world).
Proof.
  split; [reflexivity|]. split; [reflexivity|].
  apply (load_labware_rejects_populated_location
           0%nat plate_context 8%nat 1 None plate_world);
    [reflexivity | by eexists].
Defined.

(** C5, on the simulated robot: labware 9 into the free slot 3 of a deck
    that holds labware 7 in slot 1. *)
Lemma load_labware_then_loaded_labwares_witness :
  ∃ (w' : World) (items : list (Z * Labware)),
    load_labware 0%nat 9%nat 3 None false plate_world = (Returns 9%nat, w')
    ∧ loaded_labwares 0%nat w' = (Returns items, w')
    ∧ (3, 9%nat) ∈ items
    ∧ StronglySorted (λ p q, p.1 < q.1) items.
Proof.
  destruct (load_labware_then_loaded_labwares
              0%nat plate_context 9%nat 3 None false plate_world
              ltac:(by vm_compute) ltac:(by vm_compute))
    as (w' & items & Hload & Hread & Hin & _ & _ & Hsorted).
  exists w', items. auto.
Defined.

End DeckExamples.

(** ** Loading an instrument *)
Section ClaimsLoadInstrument.
Context `{C : Collaborators}.

(** The driver contract of the specification (section 6): the attachment
    map has an entry for every mount, and [cache_instruments] fails with
    [InstrumentMismatch] when a requested name contradicts the instrument
    that sits on the mount. *)
Hypothesis reports_every_mount :
  ∀ (h : API) (m : Mount), is_Some (hc_attached_instruments h !! m).

Hypothesis rejects_mismatch :
  ∀ (h : API) (requested : gmap Mount (option string)) (m : Mount)
    (wanted found : string),
    requested !! m = Some (Some wanted) →
    hc_physically_attached h m = Some found →
    found ≠ wanted →
    (hc_cache_instruments (Some requested) h).1 = Raises InstrumentMismatch.

Lemma hardware_attached_instruments_eq self c w :
  heap w !! self = Some c →
  hardware_attached_instruments self w
    = (Returns (hc_attached_instruments (_hardware c)),
       mkWorld (heap w) (driver_calls w ++ [attached_instruments_read])
         (issued w)).
Proof.
  intros Hc. unfold hardware_attached_instruments, get_attr. unfold_monad.
  by rewrite Hc.
Qed.

Lemma hardware_cache_instruments_eq self c requested w :
  heap w !! self = Some c →
  hardware_cache_instruments self requested w
    = ((hc_cache_instruments requested (_hardware c)).1,
       mkWorld
         (<[self := set_hardware
                      (hc_cache_instruments requested (_hardware c)).2 c]>
            (heap w))
         (driver_calls w ++ [cache_instruments_call requested])
         (issued w)).
Proof.
  intros Hc.
  unfold hardware_cache_instruments, on_hardware, get_attr, set_attr.
  unfold_monad. rewrite Hc. simpl.
  destruct (hc_cache_instruments requested (_hardware c)) as [r h'].
  simpl. rewrite Hc. by destruct r as [[]|e].
Qed.

(** [load_instrument], step by step. *)
Lemma load_instrument_run self c instrument_name mount w :
  heap w !! self = Some c →
  load_instrument self instrument_name mount w
  = let requested := overlay (_hardware c) instrument_name mount in
    let answer := hc_cache_instruments (Some requested) (_hardware c) in
    let calls :=
      driver_calls w
        ++ [attached_instruments_read;
            cache_instruments_call (Some requested)] in
    let objects := <[self := set_hardware answer.2 c]> (heap w) in
    match answer.1 with
    | Returns _ =>
        match hc_attached_instruments answer.2 !! mount with
        | Some info =>
            (Returns {| _ctx := self; _info := info; _mount := mount |},
             mkWorld objects (calls ++ [attached_instruments_read])
               (issued w))
        | None =>
            (Raises (KeyError (Mount_name mount)),
             mkWorld objects (calls ++ [attached_instruments_read])
               (issued w))
        end
    | Raises e => (Raises e, mkWorld objects calls (issued w))
    end.
Proof.
  intros Hc. unfold load_instrument, overlay.
  unfold mbind at 1, M_bind at 1.
  rewrite (hardware_attached_instruments_eq self c w Hc).
  unfold mbind at 1, M_bind at 1.
  erewrite hardware_cache_instruments_eq by exact Hc.
  simpl. rewrite <- (assoc_L (++)). simpl.
  destruct (hc_cache_instruments _ (_hardware c)) as [[[]|e] h'];
    simpl; [|reflexivity].
  unfold mbind at 1, M_bind at 1.
  erewrite hardware_attached_instruments_eq
    by (simpl; apply lookup_insert_eq).
  simpl. unfold_monad.
  by destruct (hc_attached_instruments h' !! mount).
Qed.

(** C4.  [load_instrument] reads the attachment map of the driver, puts
    the requested name at [mount] over the names it reports, and hands
    that to [cache_instruments]; these are its driver calls, in this
    order.  When the call returns, the result is an instrument context
    for this protocol context and [mount], with the info the driver then
    reports for [mount].  When the call raises, the exception reaches the
    caller as it is and no instrument context is made; in particular an
    instrument of another name on [mount] gives [InstrumentMismatch]. *)
Theorem load_instrument_validates_with_driver
    (self : addr) (c : ProtocolContext) (instrument_name : string)
    (mount : Mount) (w : World) :
  heap w !! self = Some c →
  let requested := overlay (_hardware c) instrument_name mount in
  let answer := hc_cache_instruments (Some requested) (_hardware c) in
  let calls :=
    driver_calls w
      ++ [attached_instruments_read; cache_instruments_call (Some requested)]
  in
  let objects := <[self := set_hardware answer.2 c]> (heap w) in
  match answer.1 with
  | Returns _ =>
      ∃ info : gmap string string,
        hc_attached_instruments answer.2 !! mount = Some info
        ∧ load_instrument self instrument_name mount w
          = (Returns {| _ctx := self; _info := info; _mount := mount |},
             mkWorld objects (calls ++ [attached_instruments_read])
               (issued w))
  | Raises e =>
      load_instrument self instrument_name mount w
        = (Raises e, mkWorld objects calls (issued w))
  end
  ∧ (∀ found : string,
       hc_physically_attached (_hardware c) mount = Some found →
       found ≠ instrument_name →
       (load_instrument self instrument_name mount w).1
         = Raises InstrumentMismatch).
Proof.
  intros Hc. cbv zeta.
  rewrite (load_instrument_run self c instrument_name mount w Hc).
  cbv zeta.
  pose proof (rejects_mismatch (_hardware c)
                (overlay (_hardware c) instrument_name mount) mount
                instrument_name) as Hreject.
  destruct (hc_cache_instruments _ (_hardware c)) as [r h'].
  simpl in *. split.
  - destruct r as [[]|e]; [|reflexivity].
    destruct (reports_every_mount h' mount) as [info Hinfo].
    exists info. by rewrite Hinfo.
  - intros found Hfound Hne.
    rewrite (Hreject found); [reflexivity| |done|done].
    apply lookup_insert_eq.
Qed.

End ClaimsLoadInstrument.

(** ** Loading an instrument on the simulated robot *)

Lemma simulator_reports_every_mount (h : @API simulator) (m : Mount) :
  is_Some (@hc_attached_instruments simulator h !! m).
Proof.
  destruct m; simpl.
  - rewrite lookup_insert_eq. by eexists.
  - rewrite lookup_insert_ne by done. rewrite lookup_singleton_eq.
    by eexists.
Qed.

Lemma simulator_rejects_mismatch
    (h : @API simulator) (requested : gmap Mount (option string))
    (m : Mount) (wanted found : string) :
  requested !! m = Some (Some wanted) →
  @hc_physically_attached simulator h m = Some found →
  found ≠ wanted →
  (@hc_cache_instruments simulator (Some requested) h).1
    = Raises InstrumentMismatch.
Proof.
  intros Hreq Hfound Hne.
  change (sim_name h m = Some found) in Hfound.
  change ((sim_cache_instruments (Some requested) h).1
          = Raises InstrumentMismatch).
  unfold sim_cache_instruments.
  assert (sim_contradicts requested h m = true) as Hm.
  { unfold sim_contradicts. rewrite Hreq, Hfound.
    by apply bool_decide_eq_true. }
  assert (existsb (sim_contradicts requested h) (enum Mount) = true) as ->;
    [|reflexivity].
  apply existsb_exists. exists m. split; [|exact Hm].
  destruct m; simpl; auto.
Qed.

Section LoadInstrumentExamples.
Local Existing Instance simulator.

(** C4, on the simulated robot with a ["p300_single"] on the left mount:
    asking for a ["p10_single"] there fails with [InstrumentMismatch]; asking
    for the ["p300_single"] returns an instrument context with the info the
    driver reports. *)
Lemma load_instrument_validates_with_driver_witness :
  heap robot_world !! 0%nat = Some robot_context
  ∧ (load_instrument 0%nat "p10_single" LEFT robot_world).1
    = Raises InstrumentMismatch
  ∧ ∃ info : gmap string string,
      load_instrument 0%nat "p300_single" LEFT robot_world
      = (Returns {| _ctx := 0%nat; _info := info; _mount := LEFT |},
         mkWorld
           (<[0%nat := set_hardware p300_left robot_context]>
              (heap robot_world))
           (driver_calls robot_world
              ++ [attached_instruments_read;
                  cache_instruments_call
                    (Some (overlay p300_left "p300_single" LEFT))]
              ++ [attached_instruments_read])
           (issued robot_world)).
Proof.
  assert (Hc : heap robot_world !! 0%nat = Some robot_context)
    by (by vm_compute).
  split; [exact Hc|]. split.
  - apply (proj2 (load_instrument_validates_with_driver
                    simulator_reports_every_mount simulator_rejects_mismatch
                    0%nat robot_context "p10_single" LEFT robot_world Hc)
             "p300_single"); [by vm_compute | discriminate].
  - pose proof (proj1 (load_instrument_validates_with_driver
                    simulator_reports_every_mount simulator_rejects_mismatch
                    0%nat robot_context "p300_single" LEFT robot_world Hc))
      as Hload.
    destruct Hload as (info & _ & Hload). exists info.
    rewrite Hload. rewrite <- (assoc_L (++)). reflexivity.
Defined.

End LoadInstrumentExamples.

(** * Further properties of the two classes *)

(** ** Calls that reach the driver: [connect], [disconnect], [move_to],
       [home] *)
Section DriverCalls.
Context `{C : Collaborators}.

Lemma on_hardware_eq self c call f w :
  heap w !! self = Some c →
  on_hardware self call f w
    = ((f (_hardware c)).1,
       mkWorld (<[self := set_hardware (f (_hardware c)).2 c]> (heap w))
         (driver_calls w ++ [call]) (issued w)).
Proof.
  intros Hc. unfold on_hardware, get_attr, set_attr. unfold_monad.
  rewrite Hc. simpl. destruct (f (_hardware c)) as [r h']. simpl.
  rewrite Hc. by destruct r as [[]|e].
Qed.

Lemma connect_eq self c hardware w :
  heap w !! self = Some c →
  connect self hardware w
    = ((hc_cache_instruments None hardware).1,
       mkWorld
         (<[self := mkProtocolContext (hc_cache_instruments None hardware).2
                      (_deck_layout c) (_instruments c)]> (heap w))
         (driver_calls w ++ [cache_instruments_call None])
         (issued w)).
Proof.
  intros Hc. unfold connect.
  unfold mbind at 1, M_bind at 1. unfold set_attr at 1. rewrite Hc.
  unfold hardware_cache_instruments.
  erewrite on_hardware_eq by (simpl; apply lookup_insert_eq).
  simpl. by rewrite insert_insert_eq.
Qed.

(** [connect] binds the new driver first and then asks it once to cache
    its instruments, with no request.  The outcome of the call is the
    outcome of that driver call; also when it raises, the context stays
    bound to the new driver, in the state the call left it.  The deck and
    the instrument mapping are as before. *)
Theorem connect_binds_then_caches
    (self : addr) (c : ProtocolContext) (hardware : API) (w : World) :
  heap w !! self = Some c →
  connect self hardware w
    = ((hc_cache_instruments None hardware).1,
       mkWorld
         (<[self := mkProtocolContext (hc_cache_instruments None hardware).2
                      (_deck_layout c) (_instruments c)]> (heap w))
         (driver_calls w ++ [cache_instruments_call None])
         (issued w)).
Proof. apply connect_eq. Qed.

(** [disconnect] forgets the driver that was bound: whatever it was, the
    outcome and the world after are the same, and the context ends bound
    to a simulator that was asked once to cache its instruments. *)
Theorem disconnect_forgets_the_driver
    (self : addr) (c : ProtocolContext) (previous : API) (w : World) :
  heap w !! self = Some c →
  disconnect self (set_heap (<[self := set_hardware previous c]> (heap w)) w)
    = disconnect self w
  ∧ ∃ c', heap (disconnect self w).2 !! self = Some c'
          ∧ _hardware c'
            = (hc_cache_instruments None hc_build_hardware_simulator).2
          ∧ _deck_layout c' = _deck_layout c
          ∧ _instruments c' = _instruments c.
Proof.
  intros Hc. unfold disconnect. split.
  - rewrite (connect_eq self c _ w Hc).
    erewrite connect_eq by (simpl; apply lookup_insert_eq).
    simpl. by rewrite insert_insert_eq.
  - rewrite (connect_eq self c _ w Hc). simpl.
    rewrite lookup_insert_eq. eauto.
Qed.

(** [move_to] resolves the location before it goes to the driver.  When
    the geometry helper raises, the exception reaches the caller and no
    driver call was made: the world is untouched.  Otherwise there is
    exactly one driver call, [move_to] with the mount and the resolved
    point, whose outcome is the outcome of the method; [strategy] is not
    passed on. *)
Theorem move_to_resolves_before_moving
    (self : addr) (c : ProtocolContext) (mount : Mount)
    (location : Location) (strategy : option MotionStrategy) (w : World) :
  heap w !! self = Some c →
  move_to self mount location strategy w
    = match geometry_point_from_location location with
      | Raises e => (Raises e, w)
      | Returns where_ =>
          ((hc_move_to mount where_ (_hardware c)).1,
           mkWorld
             (<[self := set_hardware
                          (hc_move_to mount where_ (_hardware c)).2 c]>
                (heap w))
             (driver_calls w ++ [move_to_call mount where_])
             (issued w))
      end.
Proof.
  intros Hc. unfold move_to, hardware_move_to.
  unfold mbind at 1, M_bind at 1.
  destruct (geometry_point_from_location location) as [p|e]; simpl;
    [|reflexivity].
  by apply on_hardware_eq.
Qed.

(** [home] is one driver call, [home]; its outcome is the outcome of the
    method, and the deck and the instrument mapping are as before. *)
Theorem home_is_one_driver_call
    (self : addr) (c : ProtocolContext) (w : World) :
  heap w !! self = Some c →
  home self w
    = ((hc_home (_hardware c)).1,
       mkWorld
         (<[self := mkProtocolContext (hc_home (_hardware c)).2
                      (_deck_layout c) (_instruments c)]> (heap w))
         (driver_calls w ++ [home_call]) (issued w)).
Proof. intros Hc. unfold home, hardware_home. by apply on_hardware_eq. Qed.

(** [InstrumentContext.home] and [InstrumentContext.move_to] do to the
    world what the methods of their protocol context do, [move_to] with
    the mount of the instrument; they return the instrument itself when
    that call returns, so that calls chain, and pass its exception on
    when it raises. *)
Theorem instrument_motion_delegates
    (self : InstrumentContext) (location : Location)
    (strategy : option MotionStrategy) (w : World) :
  instr_home self w
    = (returning self (home (_ctx self) w).1, (home (_ctx self) w).2)
  ∧ instr_move_to self location strategy w
    = (returning self
         (move_to (_ctx self) (_mount self) location strategy w).1,
       (move_to (_ctx self) (_mount self) location strategy w).2).
Proof.
  split.
  - unfold instr_home. unfold mbind at 1, M_bind at 1.
    by destruct (home (_ctx self) w) as [[[]|e] w'].
  - unfold instr_move_to. unfold mbind at 1, M_bind at 1.
    by destruct (move_to _ _ _ _ w) as [[[]|e] w'].
Qed.

End DriverCalls.

(** ** Loading labware by name, and the instrument handed out *)
Section Loading.
Context `{C : Collaborators}.

(** [load_labware_by_name] asks the deck for the position of the slot,
    then the loader for the labware, then loads it: the call is
    [load_labware] of what the loader made, with no label and
    [share=False].  When the position or the loader raises, the exception
    reaches the caller and nothing was changed.  On a free location the
    labware of the loader is returned and the deck holds it there; on a
    populated one the call fails with [LocationOccupied], after the loader
    made the labware, and nothing was changed. *)
Theorem load_labware_by_name_outcomes
    (self : addr) (c : ProtocolContext) (labware_name : string)
    (location : DeckLocation) (w : World) :
  heap w !! self = Some c →
  match Deck_position_for location with
  | Raises e =>
      load_labware_by_name self labware_name location w = (Raises e, w)
  | Returns position =>
      match labware_load labware_name position with
      | Raises e =>
          load_labware_by_name self labware_name location w = (Raises e, w)
      | Returns labware =>
          load_labware_by_name self labware_name location w
            = load_labware self labware location None false w
          ∧ match _deck_layout c !! location with
            | Some _ =>
                load_labware_by_name self labware_name location w
                  = (Raises LocationOccupied, w)
            | None =>
                (load_labware_by_name self labware_name location w).1
                  = Returns labware
                ∧ ∃ c',
                    heap (load_labware_by_name self labware_name location
                            w).2 !! self = Some c'
                    ∧ _deck_layout c' !! location = Some labware
            end
      end
  end.
Proof.
  intros Hc.
  assert (Hrun : load_labware_by_name self labware_name location w
    = match Deck_position_for location with
      | Raises e => (Raises e, w)
      | Returns position =>
          match labware_load labware_name position with
          | Raises e => (Raises e, w)
          | Returns labware => load_labware self labware location None false w
          end
      end).
  { unfold load_labware_by_name. unfold mbind at 1, M_bind at 1.
    unfold get_attr at 1. rewrite Hc.
    unfold mbind at 1, M_bind at 1.
    destruct (Deck_position_for location) as [position|e]; [|reflexivity].
    unfold lift_res at 1, mret at 1, M_ret at 1.
    unfold mbind at 1, M_bind at 1.
    by destruct (labware_load labware_name position). }
  rewrite Hrun.
  destruct (Deck_position_for location) as [position|e]; [|reflexivity].
  destruct (labware_load labware_name position) as [labware|e];
    [|reflexivity].
  split; [reflexivity|].
  destruct (_deck_layout c !! location) as [held|] eqn:Hslot.
  - apply (load_labware_populated_eq self c labware location None false w Hc).
    rewrite Hslot. by eexists.
  - rewrite (load_labware_eq self c labware location None false w Hc Hslot).
    split; [reflexivity|]. simpl.
    rewrite lookup_insert_eq. eexists. split; [reflexivity|].
    apply lookup_insert_eq.
Qed.

(** When the driver accepts the request but its attachment map has no
    entry for the mount, [load_instrument] raises [KeyError] for the
    mount; by then the driver was called and keeps the state the call
    left, and no instrument context was made. *)
Theorem load_instrument_mount_not_reported
    (self : addr) (c : ProtocolContext) (instrument_name : string)
    (mount : Mount) (w : World) :
  heap w !! self = Some c →
  let requested := overlay (_hardware c) instrument_name mount in
  let answer := hc_cache_instruments (Some requested) (_hardware c) in
  answer.1 = Returns () →
  hc_attached_instruments answer.2 !! mount = None →
  load_instrument self instrument_name mount w
    = (Raises (KeyError (Mount_name mount)),
       mkWorld (<[self := set_hardware answer.2 c]> (heap w))
         (driver_calls w
            ++ [attached_instruments_read;
                cache_instruments_call (Some requested);
                attached_instruments_read])
         (issued w)).
Proof.
  intros Hc requested answer Hok Hnone.
  rewrite (load_instrument_run self c instrument_name mount w Hc).
  cbv zeta. fold requested. fold answer. rewrite Hok, Hnone.
  by rewrite <- (assoc_L (++)).
Qed.

(** The instrument context that [load_instrument] returns belongs to the
    calling context and the requested mount, and carries what the bound
    driver reports for that mount at that moment.  Its [name] is the
    ["name"] entry of that report, or [KeyError] when the report has none;
    its [mount] is the lower-case name of the mount.  Neither property
    changes anything. *)
Theorem loaded_instrument_identity
    (self : addr) (c : ProtocolContext) (instrument_name : string)
    (mount_ : Mount) (ic : InstrumentContext) (w w' : World) :
  heap w !! self = Some c →
  load_instrument self instrument_name mount_ w = (Returns ic, w') →
  _ctx ic = self
  ∧ _mount ic = mount_
  ∧ (∃ c', heap w' !! self = Some c'
           ∧ hc_attached_instruments (_hardware c') !! mount_
             = Some (_info ic))
  ∧ name ic w'
    = (match _info ic !! "name" with
       | Some n => Returns n
       | None => Raises (KeyError "name")
       end, w')
  ∧ mount ic w' = (Returns (lower (Mount_name mount_)), w').
Proof.
  intros Hc. rewrite (load_instrument_run self c instrument_name mount_ w Hc).
  cbv zeta.
  destruct (hc_cache_instruments _ (_hardware c)) as [[[]|e] h']; simpl;
    [|discriminate].
  destruct (hc_attached_instruments h' !! mount_) as [info|] eqn:Hinfo;
    [|discriminate].
  intros [= <- <-]. simpl. repeat split.
  - rewrite lookup_insert_eq. eauto.
  - unfold name. unfold_monad. simpl. by destruct (info !! "name").
Qed.

(** The [mount] property is ["left"] or ["right"], tells the two mounts
    apart, and changes nothing. *)
Theorem mount_is_left_or_right (self : InstrumentContext) (w : World) :
  ∃ s : string,
    mount self w = (Returns s, w)
    ∧ (s = "left" ∨ s = "right")
    ∧ (s = "left" ↔ _mount self = LEFT)
    ∧ (s = "right" ↔ _mount self = RIGHT).
Proof.
  unfold mount. unfold_monad. destruct (_mount self); eexists;
    (split; [reflexivity|]); simpl; naive_solver.
Qed.

End Loading.

(** ** Frames: what a call leaves alone *)
Section Frames.
Context `{C : Collaborators}.
Context {F : Type} (proj : ProtocolContext → F) (a : addr).

Lemma keeps_field_refl w : keeps_field proj a w w.
Proof. intros c Hc. eauto. Qed.

Lemma keeps_field_trans w1 w2 w3 :
  keeps_field proj a w1 w2 → keeps_field proj a w2 w3 →
  keeps_field proj a w1 w3.
Proof.
  intros H12 H23 c1 Hc1. destruct (H12 c1 Hc1) as (c2 & Hc2 & E12).
  destruct (H23 c2 Hc2) as (c3 & Hc3 & E23). exists c3. split; congruence.
Qed.

Lemma kept_ret {A} (x : A) : field_kept proj a (mret x : M A).
Proof. intros w. apply keeps_field_refl. Qed.

Lemma kept_raise {A} e : field_kept proj a (raise e : M A).
Proof. intros w. apply keeps_field_refl. Qed.

Lemma kept_bind {A B} (m : M A) (f : A → M B) :
  field_kept proj a m → (∀ x, field_kept proj a (f x)) →
  field_kept proj a (m ≫= f).
Proof.
  intros Hm Hf w. specialize (Hm w). unfold mbind, M_bind.
  destruct (m w) as [[x|e] w'] eqn:E; simpl in *; [|done].
  eapply keeps_field_trans; [exact Hm | apply Hf].
Qed.

Lemma kept_fmap {A B} (g : A → B) (m : M A) :
  field_kept proj a m → field_kept proj a (g <$> m).
Proof.
  intros Hm. unfold fmap, M_fmap.
  apply kept_bind; [done | intros; apply kept_ret].
Qed.

Lemma kept_none (m : M ()) : field_kept proj a m → field_kept proj a (none m).
Proof.
  intros Hm. apply kept_bind; [done | intros; apply kept_ret].
Qed.

Lemma kept_lift_res {A} (r : Res A) : field_kept proj a (lift_res r).
Proof. destruct r; [apply kept_ret | apply kept_raise]. Qed.

Lemma kept_get_attr {A} self (f : ProtocolContext → A) :
  field_kept proj a (get_attr self f).
Proof.
  intros w. unfold get_attr.
  destruct (heap w !! self); apply keeps_field_refl.
Qed.

Lemma kept_set_attr self (f : ProtocolContext → ProtocolContext) :
  (self = a → ∀ c, proj (f c) = proj c) →
  field_kept proj a (set_attr self f).
Proof.
  intros Hf w. unfold set_attr.
  destruct (heap w !! self) as [c|] eqn:E; [|apply keeps_field_refl].
  intros c0 Hc0. simpl. destruct (decide (self = a)) as [->|Hne].
  - rewrite lookup_insert_eq. simplify_eq. eauto.
  - rewrite lookup_insert_ne by done. eauto.
Qed.

Lemma kept_log_driver c : field_kept proj a (log_driver c).
Proof. intros w c0 Hc0. simpl. eauto. Qed.

Lemma kept_log_issued ic op : field_kept proj a (log_issued ic op).
Proof. intros w c0 Hc0. simpl. eauto. Qed.

Lemma kept_getitem {K A} `{Countable K} (d : gmap K A) k shown :
  field_kept proj a (getitem d k shown).
Proof.
  unfold getitem. destruct (d !! k); [apply kept_ret | apply kept_raise].
Qed.

Lemma kept_ProtocolContext__init__ hardware :
  field_kept proj a (ProtocolContext__init__ hardware).
Proof.
  intros w c Hc. unfold ProtocolContext__init__. simpl.
  rewrite lookup_insert_ne; [eauto|].
  intros Heq. pose proof (is_fresh (dom (heap w))) as Hfresh.
  apply Hfresh. rewrite Heq. apply elem_of_dom. eauto.
Qed.

Lemma kept_on_hardware self call f :
  (self = a → ∀ h c, proj (set_hardware h c) = proj c) →
  field_kept proj a (on_hardware self call f).
Proof.
  intros Hproj. unfold on_hardware.
  apply kept_bind; [apply kept_get_attr|]. intros h.
  apply kept_bind; [apply kept_log_driver|]. intros _.
  destruct (f h) as [r h'].
  apply kept_bind; [|intros; apply kept_lift_res].
  apply kept_set_attr. auto.
Qed.

Lemma kept_load_labware self labware_obj location label share :
  (self = a → ∀ d c, proj (set_deck_layout d c) = proj c) →
  field_kept proj a (load_labware self labware_obj location label share).
Proof.
  intros Hproj. unfold load_labware.
  apply kept_bind; [apply kept_get_attr|]. intros deck.
  apply kept_bind; [apply kept_lift_res|]. intros deck'.
  apply kept_bind; [|intros; apply kept_ret].
  apply kept_set_attr. auto.
Qed.

End Frames.

Create HintDb kept.

#[local] Hint Resolve kept_ret kept_raise kept_bind kept_fmap kept_none
  kept_lift_res kept_get_attr kept_log_driver kept_log_issued kept_getitem
  kept_ProtocolContext__init__ : kept.

Section FrameTheorems.
Context `{C : Collaborators}.

Lemma kept_exec_instr {F} (proj : ProtocolContext → F) a self op :
  (∀ h c, proj (set_hardware h c) = proj c) →
  field_kept proj a (exec_instr self op).
Proof.
  intros Hproj.
  assert (∀ s call f, field_kept proj a (on_hardware s call f))
    by (intros; apply kept_on_hardware; auto).
  destruct op; simpl;
    unfold aspirate, dispense, mix, blow_out, touch_tip, air_gap,
      return_tip, pick_up_tip, drop_tip, instr_home, distribute,
      consolidate, transfer, instr_move_to, mount, speeds, set_speeds,
      flow_rate, set_flow_rate, pick_up_current, set_pick_up_current,
      type, tip_racks, set_tip_racks, trash_container,
      set_trash_container, name, home, move_to, hardware_move_to,
      hardware_home, pass;
    auto 10 with kept.
Qed.

(** The deck of a context changes only under [load_labware] and
    [load_labware_by_name] called on that very context: every other call
    of a script, on this context, on another one or on an instrument,
    leaves the context in place with its deck as it was. *)
Theorem deck_changes_only_by_loading
    (o : Op) (a : addr) (c : ProtocolContext) (w : World) :
  loads_into o a = false →
  heap w !! a = Some c →
  ∃ c', heap (exec o w).2 !! a = Some c'
        ∧ _deck_layout c' = _deck_layout c.
Proof.
  intros Hloads Hc.
  cut (field_kept _deck_layout a (exec o)); [intros HK; exact (HK w c Hc)|].
  clear w c Hc.
  assert (∀ s call f, field_kept _deck_layout a (on_hardware s call f))
    by (intros; by apply kept_on_hardware).
  assert (∀ s h, field_kept _deck_layout a (set_attr s (set_hardware h)))
    by (intros; by apply kept_set_attr).
  destruct o as [hardware| | self op | self op]; simpl.
  - auto with kept.
  - auto with kept.
  - destruct op; simpl in *;
      unfold connect, disconnect, connect, load_labware_by_name,
        loaded_labwares, load_instrument, pause, resume, comment, move_to,
        home, hardware_cache_instruments, hardware_move_to, hardware_home,
        hardware_attached_instruments, pass;
      try apply bool_decide_eq_false in Hloads;
      try (assert (∀ lw loc label share,
             field_kept _deck_layout a (load_labware self lw loc label share))
           by (intros; apply kept_load_labware; done));
      auto 10 with kept.
  - by apply kept_exec_instr.
Qed.

(** A call that is not one of [connect], [disconnect], [load_instrument],
    [move_to], [home] of a protocol context or [home], [move_to] of an
    instrument makes no driver call and leaves every context bound to the
    driver it had, in the state it had. *)
Theorem only_driver_methods_reach_the_driver
    (o : Op) (a : addr) (c : ProtocolContext) (w : World) :
  reaches_driver o = false →
  heap w !! a = Some c →
  driver_calls (exec o w).2 = driver_calls w
  ∧ ∃ c', heap (exec o w).2 !! a = Some c' ∧ _hardware c' = _hardware c.
Proof.
  intros Hreach Hc. split.
  - destruct o as [hardware| | self op | self op]; simpl; try reflexivity.
    + destruct op; try discriminate Hreach; simpl;
        unfold load_labware_by_name, load_labware, loaded_labwares, pause,
          resume, comment, get_attr, set_attr, Deck_setitem;
        unfold_monad; unfold_monad;
        repeat case_match; simplify_eq; reflexivity.
    + destruct op; try discriminate Hreach; simpl; try reflexivity.
      unfold name. unfold_monad. by destruct (_info self !! "name").
  - cut (field_kept _hardware a (exec o)); [intros HK; exact (HK w c Hc)|].
    clear w c Hc.
    assert (∀ s lw loc label share,
              field_kept _hardware a (load_labware s lw loc label share))
      by (intros; by apply kept_load_labware).
    destruct o as [hardware| | self op | self op]; simpl.
    + auto with kept.
    + auto with kept.
    + destruct op; try discriminate Hreach; simpl;
        unfold load_labware_by_name, loaded_labwares, pause, resume,
          comment, pass;
        auto 10 with kept.
    + destruct op; try discriminate Hreach; simpl;
        unfold aspirate, dispense, mix, blow_out, touch_tip, air_gap,
          return_tip, pick_up_tip, drop_tip, distribute, consolidate,
          transfer, mount, speeds, set_speeds, flow_rate, set_flow_rate,
          pick_up_current, set_pick_up_current, type, tip_racks,
          set_tip_racks, trash_container, set_trash_container, name, pass;
        auto 10 with kept.
Qed.

(** Apart from [home] and [move_to], no method or property of an
    instrument context changes any protocol context or reaches the driver:
    [drop_tip] and [return_tip] do not home, whatever [home_after] says,
    and [mix], [distribute] and [consolidate] move nothing. *)
Theorem instrument_methods_are_local
    (self : InstrumentContext) (op : InstrOp) (w : World) :
  delegates op = false →
  heap (exec_instr self op w).2 = heap w
  ∧ driver_calls (exec_instr self op w).2 = driver_calls w.
Proof.
  intros Hop. destruct op; try discriminate Hop; simpl; try done.
  unfold name. unfold_monad. by destruct (_info self !! "name").
Qed.

End FrameTheorems.

(** ** The further properties on the simulated robot *)
Section FurtherExamples.
Local Existing Instance simulator.

(** Connecting the context at address 0 to another simulated robot. *)
Lemma connect_binds_then_caches_witness :
  heap robot_world !! 0%nat = Some robot_context
  ∧ (connect 0%nat (∅, ∅) robot_world).1 = Returns ()
  ∧ driver_calls (connect 0%nat (∅, ∅) robot_world).2
    = [cache_instruments_call None].
Proof.
  split; [reflexivity|].
  rewrite (connect_binds_then_caches 0%nat robot_context (∅, ∅) robot_world);
    [split|]; reflexivity.
Defined.

Lemma disconnect_forgets_the_driver_witness :
  heap plate_world !! 0%nat = Some plate_context
  ∧ disconnect 0%nat
      (set_heap (<[0%nat := set_hardware (∅, ∅) plate_context]>
                   (heap plate_world)) plate_world)
    = disconnect 0%nat plate_world.
Proof.
  split; [reflexivity|].
  apply (disconnect_forgets_the_driver 0%nat plate_context (∅, ∅) plate_world).
  reflexivity.
Defined.

Lemma move_to_resolves_before_moving_witness :
  heap robot_world !! 0%nat = Some robot_context
  ∧ driver_calls (move_to 0%nat RIGHT (10, 20, 30) None robot_world).2
    = [move_to_call RIGHT (10, 20, 30)].
Proof.
  split; [reflexivity|].
  rewrite (move_to_resolves_before_moving
             0%nat robot_context RIGHT (10, 20, 30) None robot_world);
    reflexivity.
Defined.

Lemma home_is_one_driver_call_witness :
  heap robot_world !! 0%nat = Some robot_context
  ∧ (home 0%nat robot_world).1 = Returns ()
  ∧ driver_calls (home 0%nat robot_world).2 = [home_call].
Proof.
  split; [reflexivity|].
  rewrite (home_is_one_driver_call 0%nat robot_context robot_world);
    [split|]; reflexivity.
Defined.

(** The simulated loader makes labware 5 of the name ["plate"]. *)
Lemma load_labware_by_name_outcomes_witness :
  heap robot_world !! 0%nat = Some robot_context
  ∧ load_labware_by_name 0%nat "plate" 4 robot_world
    = load_labware 0%nat 5%nat 4 None false robot_world.
Proof.
  split; [reflexivity|].
  apply (load_labware_by_name_outcomes
           0%nat robot_context "plate" 4 robot_world).
  reflexivity.
Defined.

Lemma loaded_instrument_identity_witness :
  heap robot_world !! 0%nat = Some robot_context
  ∧ (load_instrument 0%nat "p300_single" LEFT robot_world).1 = Returns pipette
  ∧ (name pipette
       (load_instrument 0%nat "p300_single" LEFT robot_world).2).1
    = Returns "p300_single".
Proof.
  split; [reflexivity|]. split; [reflexivity|].
  destruct (loaded_instrument_identity
              0%nat robot_context "p300_single" LEFT pipette robot_world
              (load_instrument 0%nat "p300_single" LEFT robot_world).2)
    as (_ & _ & _ & Hname & _); [reflexivity | reflexivity |].
  rewrite Hname. reflexivity.
Defined.

(** Homing the robot leaves the plate of slot 1 where it is. *)
Lemma deck_changes_only_by_loading_witness :
  loads_into (on_protocol 0%nat home_op) 0%nat = false
  ∧ heap plate_world !! 0%nat = Some plate_context
  ∧ ∃ c', heap (exec (on_protocol 0%nat home_op) plate_world).2 !! 0%nat
            = Some c'
          ∧ _deck_layout c' = _deck_layout plate_context.
Proof.
  split; [reflexivity|]. split; [reflexivity|].
  apply (deck_changes_only_by_loading
           (on_protocol 0%nat home_op) 0%nat plate_context plate_world);
    reflexivity.
Defined.

Lemma only_driver_methods_reach_the_driver_witness :
  reaches_driver (on_protocol 0%nat (load_labware_by_name_op "plate" 4))
    = false
  ∧ heap robot_world !! 0%nat = Some robot_context
  ∧ driver_calls
      (exec (on_protocol 0%nat (load_labware_by_name_op "plate" 4))
         robot_world).2
    = driver_calls robot_world.
Proof.
  split; [reflexivity|]. split; [reflexivity|].
  apply (only_driver_methods_reach_the_driver
           (on_protocol 0%nat (load_labware_by_name_op "plate" 4))
           0%nat robot_context robot_world); reflexivity.
Defined.

(** [drop_tip] with [home_after=True] makes no driver call. *)
Lemma instrument_methods_are_local_witness :
  delegates (C := simulator) (drop_tip_op None true) = false
  ∧ driver_calls (exec_instr pipette (drop_tip_op None true) robot_world).2
    = driver_calls robot_world.
Proof.
  split; [reflexivity|].
  apply (instrument_methods_are_local pipette (drop_tip_op None true)
           robot_world).
  reflexivity.
Defined.

End FurtherExamples.

(** On a driver that reports no mount, [load_instrument] raises
    [KeyError] after the driver accepted the request. *)
Lemma load_instrument_mount_not_reported_witness :
  (load_instrument (C := bare_driver) 0%nat "p300_single" LEFT
     (run (C := bare_driver) [new_ProtocolContext None] empty_world)).1
  = Raises (KeyError "LEFT").
Proof.
  rewrite (load_instrument_mount_not_reported (C := bare_driver)
             0%nat (mkProtocolContext (C := bare_driver) () ∅
                      {[ LEFT := None; RIGHT := None ]})
             "p300_single" LEFT
             (run (C := bare_driver) [new_ProtocolContext None] empty_world));
    reflexivity.
Defined.

(** * Properties of the update lock *)
Section ResinProofs.
Import Resin.
Context `{O : OS}.

Ltac unfold_resin :=
  unfold lock_updates, unlock_updates, with_open, leaving,
    try_except_OSError, path_exists, log_warning, environ_get, sys,
    Resin.pass, mbind, Resin.M_bind, mret, Resin.M_ret in *.

(** Off the robot both functions do nothing: when [RUNNING_ON_PI] is not
    set, or is set to the empty string, no operation of the system is
    made, nothing is logged and the world is as before. *)
Theorem update_lock_is_idle_off_the_robot (w : World) :
  truthy (environ w !! "RUNNING_ON_PI") = false →
  lock_updates w = (Done (), w) ∧ unlock_updates w = (Done (), w).
Proof. intros Hoff. unfold_resin. by rewrite Hoff. Qed.

Lemma lock_updates_outcome (w : World) :
  (∀ errno, (lock_updates w).1 ≠ Failed (OSError errno))
  ∧ environ (lock_updates w).2 = environ w.
Proof.
  unfold_resin.
  destruct (truthy (environ w !! "RUNNING_ON_PI")); [|done].
  destruct (os_open lock_file_path "w" (fs w)) as [[fd|[n|s]] s1];
    simpl; [|done|done].
  destruct (file_write fd "a" s1) as [[[]|[n|s]] s2]; simpl.
  - destruct (fcntl_flock_ex fd s2) as [[[]|[n|s]] s3]; simpl.
    + destruct (file_close fd s3) as [[[]|[n|s]] s4]; simpl;
        by destruct (file_close fd s4) as [[[]|[n'|s']] s5].
    + by destruct (file_close fd s3) as [[[]|[n'|s']] s4].
    + by destruct (file_close fd s3) as [[[]|[n'|s']] s4].
  - by destruct (file_close fd s2) as [[[]|[n'|s']] s3].
  - by destruct (file_close fd s2) as [[[]|[n'|s']] s3].
Qed.

(** [lock_updates] never lets an [OSError] out, whichever of opening,
    writing, locking and closing raises it, and never touches the
    environment. *)
Theorem lock_updates_catches_OSError (w : World) (errno : Z) :
  (lock_updates w).1 ≠ Failed (OSError errno)
  ∧ environ (lock_updates w).2 = environ w.
Proof.
  destruct (lock_updates_outcome w) as [Hout Henv]. split; [apply Hout|done].
Qed.

(** When the file cannot be opened ([OSError], as when the directory is
    missing), [lock_updates] returns normally after that one operation: it
    writes nothing, locks nothing, and logs one warning. *)
Theorem lock_updates_open_failure (w : World) (errno : Z) (s1 : FS) :
  truthy (environ w !! "RUNNING_ON_PI") = true →
  os_open lock_file_path "w" (fs w) = (Failed (OSError errno), s1) →
  lock_updates w
    = (Done (),
       mkWorld (environ w) s1
         (os_calls w ++ [open_call lock_file_path "w"])
         (warnings w ++ ["Unable to create resin-update lock file"])).
Proof. intros Hon Hopen. unfold_resin. by rewrite Hon, Hopen. Qed.

(** Whatever happens after the file was opened, the last operation
    [lock_updates] makes is closing it. *)
Theorem lock_updates_closes_the_file (w : World) (fd : File) (s1 : FS) :
  truthy (environ w !! "RUNNING_ON_PI") = true →
  os_open lock_file_path "w" (fs w) = (Done fd, s1) →
  ∃ between : list OsCall,
    os_calls (lock_updates w).2
      = os_calls w ++ open_call lock_file_path "w" :: between
          ++ [close_call].
Proof.
  intros Hon Hopen. unfold_resin. rewrite Hon, Hopen. simpl.
  destruct (file_write fd "a" s1) as [[[]|e2] s2]; simpl.
  - destruct (fcntl_flock_ex fd s2) as [[[]|e3] s3]; simpl.
    + destruct (file_close fd s3) as [[[]|e4] s4]; simpl;
        destruct (file_close fd s4) as [[[]|[n'|s']] s5];
        try destruct e4; simpl;
        (exists [write_call "a"; flock_call; close_call]);
        by rewrite <- !(assoc_L (++)).
    + destruct (file_close fd s3) as [[[]|[n'|s']] s4];
        try destruct e3; simpl;
        (exists [write_call "a"; flock_call]);
        by rewrite <- !(assoc_L (++)).
  - destruct (file_close fd s2) as [[[]|[n'|s']] s3];
      try destruct e2; simpl;
      (exists [write_call "a"]); by rewrite <- !(assoc_L (++)).
Qed.

(** When opening, writing, locking and closing all succeed, [lock_updates]
    writes ["a"], takes the lock and closes the file, and the [with] block
    closes it once more on the way out; nothing is logged. *)
Theorem lock_updates_success
    (w : World) (fd : File) (s1 s2 s3 s4 s5 : FS) :
  truthy (environ w !! "RUNNING_ON_PI") = true →
  os_open lock_file_path "w" (fs w) = (Done fd, s1) →
  file_write fd "a" s1 = (Done (), s2) →
  fcntl_flock_ex fd s2 = (Done (), s3) →
  file_close fd s3 = (Done (), s4) →
  file_close fd s4 = (Done (), s5) →
  lock_updates w
    = (Done (),
       mkWorld (environ w) s5
         (os_calls w
            ++ [open_call lock_file_path "w"; write_call "a"; flock_call;
                close_call; close_call])
         (warnings w)).
Proof.
  intros Hon Hopen Hwrite Hflock Hclose Hexit. unfold_resin.
  rewrite Hon, Hopen. simpl. rewrite Hwrite. simpl. rewrite Hflock. simpl.
  rewrite Hclose. simpl. rewrite Hexit. simpl.
  by rewrite <- !(assoc_L (++)).
Qed.

Lemma unlock_updates_run (w : World) :
  truthy (environ w !! "RUNNING_ON_PI") = true →
  unlock_updates w
    = if os_path_exists lock_file_path (fs w)
      then ((os_remove lock_file_path (fs w)).1,
            mkWorld (environ w) (os_remove lock_file_path (fs w)).2
              (os_calls w
                 ++ [exists_call lock_file_path;
                     remove_call lock_file_path])
              (warnings w))
      else (Done (),
            mkWorld (environ w) (fs w)
              (os_calls w ++ [exists_call lock_file_path]) (warnings w)).
Proof.
  intros Hon. unfold_resin. rewrite Hon. simpl.
  destruct (os_path_exists lock_file_path (fs w)); [|reflexivity].
  simpl. destruct (os_remove lock_file_path (fs w)) as [r s1]. simpl.
  by rewrite <- !(assoc_L (++)).
Qed.

(** On the robot [unlock_updates] tests for the lock file and removes it
    only when it is there; an exception of the removal is not caught (as
    the one of [lock_updates] is) and reaches the caller. *)
Theorem unlock_updates_removes_what_exists (w : World) :
  truthy (environ w !! "RUNNING_ON_PI") = true →
  unlock_updates w
    = if os_path_exists lock_file_path (fs w)
      then ((os_remove lock_file_path (fs w)).1,
            mkWorld (environ w) (os_remove lock_file_path (fs w)).2
              (os_calls w
                 ++ [exists_call lock_file_path;
                     remove_call lock_file_path])
              (warnings w))
      else (Done (),
            mkWorld (environ w) (fs w)
              (os_calls w ++ [exists_call lock_file_path]) (warnings w)).
Proof. apply unlock_updates_run. Qed.

(** ** Locking and then unlocking

    The file system is taken to behave as files do: a file that was opened
    for writing exists; writing, locking and closing do not make a path
    appear or disappear; a removal that succeeds leaves no file. *)
Hypothesis opened_exists :
  ∀ path mode s fd s',
    os_open path mode s = (Done fd, s') → os_path_exists path s' = true.
Hypothesis write_keeps_paths :
  ∀ path fd data s,
    os_path_exists path (file_write fd data s).2 = os_path_exists path s.
Hypothesis flock_keeps_paths :
  ∀ path fd s,
    os_path_exists path (fcntl_flock_ex fd s).2 = os_path_exists path s.
Hypothesis close_keeps_paths :
  ∀ path fd s,
    os_path_exists path (file_close fd s).2 = os_path_exists path s.
Hypothesis removed_is_gone :
  ∀ path s,
    (os_remove path s).1 = Done () →
    os_path_exists path (os_remove path s).2 = false.

(** On the robot, once [lock_updates] could open the lock file the file
    exists afterwards, also when a later step failed; [unlock_updates]
    then removes it, and when the removal succeeds the file is gone. *)
Theorem lock_then_unlock_removes_the_file
    (w : World) (fd : File) (s1 : FS) :
  truthy (environ w !! "RUNNING_ON_PI") = true →
  os_open lock_file_path "w" (fs w) = (Done fd, s1) →
  let locked := (lock_updates w).2 in
  os_path_exists lock_file_path (fs locked) = true
  ∧ ((os_remove lock_file_path (fs locked)).1 = Done () →
     (unlock_updates locked).1 = Done ()
     ∧ os_path_exists lock_file_path (fs (unlock_updates locked).2) = false).
Proof.
  intros Hon Hopen locked.
  assert (Henv : environ locked = environ w)
    by apply lock_updates_outcome.
  assert (Hexists : os_path_exists lock_file_path (fs locked) = true).
  { pose proof (opened_exists _ _ _ _ _ Hopen) as H1.
    subst locked. unfold_resin. rewrite Hon, Hopen. simpl.
    pose proof (write_keeps_paths lock_file_path fd "a" s1) as H2.
    destruct (file_write fd "a" s1) as [[[]|e2] s2]; simpl in *.
    - pose proof (flock_keeps_paths lock_file_path fd s2) as H3.
      destruct (fcntl_flock_ex fd s2) as [[[]|e3] s3]; simpl in *.
      + pose proof (close_keeps_paths lock_file_path fd s3) as H4.
        destruct (file_close fd s3) as [[[]|e4] s4]; simpl in *;
          pose proof (close_keeps_paths lock_file_path fd s4) as H5;
          destruct (file_close fd s4) as [[[]|[n'|s']] s5];
          try destruct e4; simpl in *; congruence.
      + pose proof (close_keeps_paths lock_file_path fd s3) as H4.
        destruct (file_close fd s3) as [[[]|[n'|s']] s4];
          try destruct e3; simpl in *; congruence.
    - pose proof (close_keeps_paths lock_file_path fd s2) as H3.
      destruct (file_close fd s2) as [[[]|[n'|s']] s3];
        try destruct e2; simpl in *; congruence. }
  split; [exact Hexists|]. intros Hremoved.
  rewrite unlock_updates_run by (by rewrite Henv).
  rewrite Hexists. simpl. split; [exact Hremoved|].
  by apply removed_is_gone.
Qed.

End ResinProofs.

(** ** The update lock on the small file system *)

Lemma disk_opened_exists path mode s fd s' :
  @Resin.os_open Resin.disk path mode s = (Resin.Done fd, s') →
  @Resin.os_path_exists Resin.disk path s' = true.
Proof.
  simpl. destruct s.1; [|discriminate]. intros [= <- <-]. simpl.
  apply bool_decide_eq_true. rewrite lookup_insert_eq. by eexists.
Qed.

Lemma disk_write_keeps_paths path fd data s :
  @Resin.os_path_exists Resin.disk path
    (@Resin.file_write Resin.disk fd data s).2
  = @Resin.os_path_exists Resin.disk path s.
Proof.
  simpl. apply bool_decide_ext.
  destruct (decide (fd = path)) as [->|Hne].
  - rewrite lookup_alter_eq. apply fmap_is_Some.
  - by rewrite lookup_alter_ne.
Qed.

Lemma disk_removed_is_gone path s :
  (@Resin.os_remove Resin.disk path s).1 = Resin.Done () →
  @Resin.os_path_exists Resin.disk path
    (@Resin.os_remove Resin.disk path s).2 = false.
Proof.
  simpl. case_bool_decide as Hin; [|discriminate]. intros _. simpl.
  apply bool_decide_eq_false. rewrite lookup_delete_eq.
  by intros [? ?].
Qed.

Section ResinExamples.
Import Resin.
Local Existing Instance disk.

(** With [RUNNING_ON_PI] set to the empty string nothing happens. *)
Lemma update_lock_is_idle_off_the_robot_witness :
  truthy (environ off_pi !! "RUNNING_ON_PI") = false
  ∧ lock_updates off_pi = (Done (), off_pi)
  ∧ unlock_updates off_pi = (Done (), off_pi).
Proof.
  split; [reflexivity|].
  apply (update_lock_is_idle_off_the_robot off_pi). reflexivity.
Defined.

(** Without the directory the lock file cannot be opened. *)
Lemma lock_updates_open_failure_witness :
  truthy (environ on_pi_no_dir !! "RUNNING_ON_PI") = true
  ∧ (lock_updates on_pi_no_dir).1 = Done ()
  ∧ warnings (lock_updates on_pi_no_dir).2
    = ["Unable to create resin-update lock file"].
Proof.
  split; [reflexivity|].
  rewrite (lock_updates_open_failure on_pi_no_dir 2 (false, ∅));
    [split|..]; reflexivity.
Defined.

Lemma lock_updates_closes_the_file_witness :
  ∃ between : list OsCall,
    os_calls (lock_updates on_pi).2
      = os_calls on_pi ++ open_call lock_file_path "w" :: between
          ++ [close_call].
Proof.
  apply (lock_updates_closes_the_file on_pi lock_file_path
           (true, {[ lock_file_path := "" ]})); reflexivity.
Defined.

Lemma lock_updates_success_witness :
  (lock_updates on_pi).1 = Done ()
  ∧ fs (lock_updates on_pi).2 = (true, {[ lock_file_path := "a" ]})
  ∧ warnings (lock_updates on_pi).2 = [].
Proof.
  rewrite (lock_updates_success on_pi lock_file_path
             (true, {[ lock_file_path := "" ]})
             (true, {[ lock_file_path := "a" ]})
             (true, {[ lock_file_path := "a" ]})
             (true, {[ lock_file_path := "a" ]})
             (true, {[ lock_file_path := "a" ]}));
    [repeat split|..]; reflexivity.
Defined.

(** With no lock file, [unlock_updates] only tests for it. *)
Lemma unlock_updates_removes_what_exists_witness :
  truthy (environ on_pi !! "RUNNING_ON_PI") = true
  ∧ os_calls (unlock_updates on_pi).2 = [exists_call lock_file_path].
Proof.
  split; [reflexivity|].
  rewrite (unlock_updates_removes_what_exists on_pi); reflexivity.
Defined.

Lemma lock_then_unlock_removes_the_file_witness :
  os_path_exists lock_file_path (fs (lock_updates on_pi).2) = true
  ∧ os_path_exists lock_file_path
      (fs (unlock_updates (lock_updates on_pi).2).2) = false.
Proof.
  destruct (lock_then_unlock_removes_the_file
              disk_opened_exists disk_write_keeps_paths
              (λ _ _ _, eq_refl) (λ _ _ _, eq_refl) disk_removed_is_gone
              on_pi lock_file_path (true, {[ lock_file_path := "" ]}))
    as [Hexists Hgone]; [reflexivity | reflexivity |].
  split; [exact Hexists|]. apply Hgone. reflexivity.
Defined.

End ResinExamples.
